(** * EKS configuration model of domino_cdk: loaders, migrations, validation

    Shallow embedding of [domino_cdk/config/eks.py].  The Python code reads an
    untyped nested mapping (parsed YAML/JSON) by destructive [dict.pop],
    builds dataclass instances whose fields are not type-checked at run time,
    and validates the finished [EKS] object in [__post_init__].  Of
    [domino_cdk/provisioners/eks/__init__.py] the one computation on
    configuration data is embedded, the name of the Kubernetes version.

    - Python values are the inductive [value]; floats are left out.
    - A [dict] is an association list in insertion order.
    - The loaders write to the nodegroup entries they are handed; where one
      entry object can be bound to several names, entries are objects of a
      store ([Shared]).
    - An exception is the [Err] branch of [result].
    - The popping loaders thread the working mapping through a small
      state-and-error monad [loader]. *)

From Stdlib Require Import List String Ascii ZArith Bool Lia.
Import ListNotations.
Local Open Scope string_scope.
Local Open Scope list_scope.

Set Warnings "-register-all".

(** ** Python values *)

Inductive value : Type :=
| VNone
| VBool (b : bool)
| VInt (z : Z)
| VStr (s : string)
| VList (l : list value)
| VDict (d : list (string * value)).

Definition dict : Type := list (string * value).

(** Truth value of an object, as tested by [if], [and], [or] and [not]. *)
Definition truthy (v : value) : bool :=
  match v with
  | VNone => false
  | VBool b => b
  | VInt z => negb (Z.eqb z 0)
  | VStr s => negb (String.eqb s "")
  | VList l => match l with [] => false | _ => true end
  | VDict d => match d with [] => false | _ => true end
  end.

(** [a or b] evaluates to [a] when [a] is true and to [b] otherwise. *)
Definition py_or (a b : value) : value := if truthy a then a else b.

(** [v == 0]: integers compare by value and [False == 0] holds, [bool]
    being a subclass of [int]; no other modelled value equals [0]. *)
Definition eq_zero (v : value) : bool :=
  match v with
  | VInt z => Z.eqb z 0
  | VBool b => negb b
  | _ => false
  end.

(** ** Exceptions *)

Inductive error : Type :=
| KeyError (key : string)
    (* [d.pop(key)] on a mapping without [key] *)
| TypeError
    (* a non-mapping used as a mapping: [TypeError] or [AttributeError] *)
| ConfigError (context : string) (keys : list string)
    (* keys left over after extraction *)
| ValueError (errors : list string)
    (* the aggregate raised by [EKS.__post_init__] *)
| OtherError (msg : string).
    (* whatever else a collaborator raises *)

Inductive result (A : Type) : Type :=
| Ok (a : A)
| Err (e : error).
Arguments Ok {A} a.
Arguments Err {A} e.

Definition rbind {A B} (m : result A) (k : A -> result B) : result B :=
  match m with
  | Ok a => k a
  | Err e => Err e
  end.

Notation "x <-- m ;; k" := (rbind m (fun x => k))
  (at level 61, m at next level, right associativity).

(** Evaluation of a comprehension body over a sequence, left to right; the
    first exception leaves the loop. *)
Fixpoint traverse {A B} (f : A -> result B) (xs : list A) : result (list B) :=
  match xs with
  | [] => Ok []
  | x :: xs' =>
      y <-- f x ;;
      ys <-- traverse f xs' ;;
      Ok (y :: ys)
  end.

(** ** Dictionaries *)

Definition keys (d : dict) : list string := map fst d.

Fixpoint dict_get (k : string) (d : dict) : option value :=
  match d with
  | [] => None
  | (k', v) :: d' => if String.eqb k k' then Some v else dict_get k d'
  end.

Definition dict_mem (k : string) (d : dict) : bool :=
  match dict_get k d with Some _ => true | None => false end.

Definition dict_del (k : string) (d : dict) : dict :=
  filter (fun kv => negb (String.eqb k (fst kv))) d.

(** [d[k] = v]: an existing key keeps its position, a new one goes last. *)
Definition dict_set (k : string) (v : value) (d : dict) : dict :=
  if dict_mem k d
  then map (fun kv => if String.eqb k (fst kv) then (k, v) else kv) d
  else d ++ [(k, v)].

(** [{**a, **b}]: the keys of [a] in order, with the values [b] gives them
    where it has any, then the keys only [b] has, in order. *)
Definition dict_merge (a b : dict) : dict :=
  map (fun kv => match dict_get (fst kv) b with
                 | Some v => (fst kv, v)
                 | None => kv
                 end) a
  ++ filter (fun kv => negb (dict_mem (fst kv) a)) b.

(** ** The loader monad: a working mapping that [pop] consumes *)

Definition loader (A : Type) : Type := dict -> result (A * dict).

Definition ret {A} (a : A) : loader A := fun d => Ok (a, d).

Definition bind {A B} (m : loader A) (k : A -> loader B) : loader B :=
  fun d => match m d with
           | Ok (a, d') => k a d'
           | Err e => Err e
           end.

Notation "x <- m ;; k" := (bind m (fun x => k))
  (at level 61, m at next level, right associativity).

(** [d.pop(k)] *)
Definition pop (k : string) : loader value :=
  fun d => match dict_get k d with
           | Some v => Ok (v, dict_del k d)
           | None => Err (KeyError k)
           end.

(** [d.pop(k, default)] *)
Definition pop_default (k : string) (default : value) : loader value :=
  fun d => match dict_get k d with
           | Some v => Ok (v, dict_del k d)
           | None => Ok (default, d)
           end.

(** A collaborator that may raise, run without touching the mapping. *)
Definition lift {A} (r : result A) : loader A :=
  fun d => match r with
           | Ok a => Ok (a, d)
           | Err e => Err e
           end.

(** ** Collaborators from [domino_cdk.config.util] *)

(** Modelled from the spec: [from_loader] of [domino_cdk/config/util.py],
    which is not among the sources.  It "asserts the remaining raw mapping is
    empty; if not, fails with a ConfigError naming context_name and the
    unexpected keys", and "returns built_object unchanged on success". *)
Definition from_loader {A} (name : string) (cfg : A) (c : dict) : result A :=
  match c with
  | [] => Ok cfg
  | _ => Err (ConfigError name (keys c))
  end.

(** Modelled from the spec: [check_leavins] of [domino_cdk/config/util.py],
    which is not among the sources: "same leftover-key check, used after
    nodegroup-specific extraction". *)
Definition check_leavins (thing section : string) (obj : dict) : result unit :=
  match obj with
  | [] => Ok tt
  | _ => Err (ConfigError section (keys obj))
  end.

(** Modelled from the spec: the [IngressRule] dataclass of
    [domino_cdk/config/util.py], with the fields the data model lists. *)
Record IngressRule : Type := {
  rule_name : string;
  from_port : Z;
  to_port : Z;
  protocol : string;
  ip_cidrs : list string
}.

(** ** Nodegroup dataclasses

    A dataclass stores whatever it is given, so every field read from the raw
    mapping is a [value]. *)

Record NodegroupBase : Type := {
  ssm_agent : value;
  disk_size : value;
  key_name : value;
  min_size : value;
  max_size : value;
  ami_id : value;
  user_data : value;
  instance_types : value;
  labels : value;
  tags : value
}.

Record ManagedNodegroup : Type := {
  m_base : NodegroupBase;
  spot : value;
  desired_size : value
}.

Record UnmanagedNodegroup : Type := {
  u_base : NodegroupBase;
  gpu : value;
  imdsv2_required : value;
  taints : value;
  ingress_ports : list IngressRule
}.

Record EKS : Type := {
  version : value;
  control_plane_access_cidrs : value;
  private_api : value;
  max_nodegroup_azs : value;
  global_node_labels : value;
  global_node_tags : value;
  secrets_encryption_key_arn : value;
  managed_nodegroups : list (string * ManagedNodegroup);
  unmanaged_nodegroups : list (string * UnmanagedNodegroup)
}.

(** [NodegroupBase.base_load]: the dict display is evaluated top to bottom. *)
Definition base_load : loader NodegroupBase :=
  v_ssm_agent <- pop "ssm_agent" ;;
  v_disk_size <- pop "disk_size" ;;
  v_key_name <- pop_default "key_name" VNone ;;
  v_min_size <- pop "min_size" ;;
  v_max_size <- pop "max_size" ;;
  v_ami_id <- pop_default "ami_id" VNone ;;
  v_user_data <- pop_default "user_data" VNone ;;
  v_instance_types <- pop "instance_types" ;;
  v_labels <- pop "labels" ;;
  v_tags <- pop "tags" ;;
  ret {| ssm_agent := v_ssm_agent; disk_size := v_disk_size;
         key_name := v_key_name; min_size := v_min_size;
         max_size := v_max_size; ami_id := v_ami_id;
         user_data := v_user_data; instance_types := v_instance_types;
         labels := v_labels; tags := v_tags |}.

(** Running a loader on a nodegroup entry, which has to be a mapping, and
    handing what is left to [check_leavins]. *)
Definition load_with {A} (m : loader A) (thing section : string) (ng : value)
  : result A :=
  match ng with
  | VDict d =>
      match m d with
      | Ok (out, rest) => _ <-- check_leavins thing section rest ;; Ok out
      | Err e => Err e
      end
  | _ => Err TypeError
  end.

(** [ManagedNodegroup.load] *)
Definition ManagedNodegroup_fields : loader ManagedNodegroup :=
  b <- base_load ;;
  v_spot <- pop "spot" ;;
  v_desired_size <- pop "desired_size" ;;
  ret {| m_base := b; spot := v_spot; desired_size := v_desired_size |}.

Definition ManagedNodegroup_load (ng : value) : result ManagedNodegroup :=
  load_with ManagedNodegroup_fields
    "managed nodegroup attribute" "config.eks.unmanaged_nodegroups" ng.

(** ** Post-construction validation *)

(** The list [errors] of [__post_init__] is threaded through explicitly;
    [errors.append(m)] is [errors ++ [m]]. *)

Definition user_data_msg (ng_name : string) : string :=
  ng_name ++ ": User data must be provided when specifying a custom AMI".

Definition incompatible_msg (ng_name : string) : string :=
  ng_name ++ ": ssm_agent, labels and taints cannot be automatically configured when specifying a custom AMI. "
          ++ "You need to configure all of this using user_data.".

Definition min_size_msg (error_name : string) : string :=
  "Error: " ++ error_name
            ++ " has min_size of 0. Only unmanaged nodegroups support min_size of 0.".

Definition access_msg : string :=
  "Cannot use 'control_plane_access_cidrs' with 'private_api'".

Definition managed_error_name (name : string) : string :=
  "Managed nodegroup [" ++ name ++ "]".

Definition unmanaged_error_name (name : string) : string :=
  "Unmanaged nodegroup [" ++ name ++ "]".

Definition check_ami_exceptions (ng_name : string) (v_ami_id v_user_data : value)
    (incompatible_options : value) (errors : list string) : list string :=
  let errors :=
    if truthy v_ami_id && negb (truthy v_user_data)
    then errors ++ [user_data_msg ng_name]
    else errors in
  if truthy v_ami_id && truthy incompatible_options
  then errors ++ [incompatible_msg ng_name]
  else errors.

(** Body of the loop over [self.managed_nodegroups.items()]. *)
Definition check_managed (errors : list string)
    (item : string * ManagedNodegroup) : list string :=
  let (name, ng) := item in
  let error_name := managed_error_name name in
  let b := m_base ng in
  let errors :=
    check_ami_exceptions error_name (ami_id b) (user_data b)
      (py_or (ssm_agent b) (labels b)) errors in
  if eq_zero (min_size b)
  then errors ++ [min_size_msg error_name]
  else errors.

(** Body of the loop over [self.unmanaged_nodegroups.items()]. *)
Definition check_unmanaged (errors : list string)
    (item : string * UnmanagedNodegroup) : list string :=
  let (name, ng) := item in
  let error_name := unmanaged_error_name name in
  let b := u_base ng in
  check_ami_exceptions error_name (ami_id b) (user_data b)
    (py_or (py_or (ssm_agent b) (labels b)) (taints ng)) errors.

(** The value of [errors] when [__post_init__] reaches its last statement. *)
Definition validation_errors (self : EKS) : list string :=
  let errors := [] in
  let errors := fold_left check_managed (managed_nodegroups self) errors in
  let errors := fold_left check_unmanaged (unmanaged_nodegroups self) errors in
  if truthy (control_plane_access_cidrs self) && truthy (private_api self)
  then errors ++ [access_msg]
  else errors.

(** [EKS.__post_init__] *)
Definition post_init (self : EKS) : result unit :=
  match validation_errors self with
  | [] => Ok tt
  | errors => Err (ValueError errors)
  end.

(** [EKS(...)]: the generated [__init__] stores the fields and then calls
    [__post_init__]. *)
Definition EKS_init (self : EKS) : result EKS :=
  _ <-- post_init self ;; Ok self.

(** ** Loading and migrating a whole configuration *)

(** [v.items()], for the iteration of a comprehension. *)
Definition items (v : value) : result dict :=
  match v with
  | VDict d => Ok d
  | _ => Err TypeError
  end.

(** [{name: f(ng) for name, ng in v.items()}], every entry a mapping of
    its own; [Shared.load_entries] is the comprehension over entries that
    several names may be bound to. *)
Definition load_items {A} (f : value -> result A) (v : value)
  : result (list (string * A)) :=
  d <-- items v ;;
  traverse (fun item : string * value =>
              out <-- f (snd item) ;; Ok (fst item, out)) d.

(** [remap_mi] of [from_0_0_0]: the two assignments, the [pop] of
    [machine_image], then the display [{**machine_image, **ng}].  This is
    the mapping returned, for an entry that no other name is bound to;
    [Shared.remap_mi] also keeps what is written into the entry. *)
Definition remap_mi (ng : value) (unmanaged : bool) : result value :=
  match ng with
  | VDict d =>
      let d :=
        if unmanaged
        then dict_set "ingress_ports" (VDict [])
               (dict_set "imdsv2_required" (VBool false) d)
        else d in
      match pop_default "machine_image" (VDict []) d with
      | Ok (VDict mi, d') => Ok (VDict (dict_merge mi d'))
      | Ok (_, _) => Err TypeError
      | Err e => Err e
      end
  | _ => Err TypeError
  end.

Section WithIngressRules.

(** [IngressRule.load_rules] belongs to [domino_cdk/config/util.py] and is
    taken as given: it maps a context name and a raw value to the rules, or
    raises. *)
Variable load_rules : string -> value -> result (list IngressRule).

(** [UnmanagedNodegroup.load] *)
Definition UnmanagedNodegroup_fields : loader UnmanagedNodegroup :=
  b <- base_load ;;
  v_gpu <- pop "gpu" ;;
  v_imdsv2_required <- pop "imdsv2_required" ;;
  v_taints <- pop_default "taints" (VDict []) ;;
  raw_ingress_ports <- pop "ingress_ports" ;;
  v_ingress_ports <-
    lift (load_rules "config.eks.unmanaged_nodegroups" raw_ingress_ports) ;;
  ret {| u_base := b; gpu := v_gpu; imdsv2_required := v_imdsv2_required;
         taints := v_taints; ingress_ports := v_ingress_ports |}.

Definition UnmanagedNodegroup_load (ng : value) : result UnmanagedNodegroup :=
  load_with UnmanagedNodegroup_fields
    "unmanaged nodegroup attribute" "config.eks.unmanaged_nodegroups" ng.

(** [EKS.from_0_0_0]: keyword arguments are evaluated in the order written,
    the constructor runs, and [from_loader] sees what is left of [c]. *)
Definition from_0_0_0_fields : loader EKS :=
  v_version <- pop "version" ;;
  v_private_api <- pop "private_api" ;;
  v_max_nodegroup_azs <- pop "max_nodegroup_azs" ;;
  v_global_node_labels <- pop "global_node_labels" ;;
  v_global_node_tags <- pop "global_node_tags" ;;
  raw_managed <- pop_default "managed_nodegroups" (VDict []) ;;
  v_managed <-
    lift (load_items (fun ng => ng' <-- remap_mi ng false ;;
                                ManagedNodegroup_load ng') raw_managed) ;;
  raw_unmanaged <- pop_default "nodegroups" (VDict []) ;;
  v_unmanaged <-
    lift (load_items (fun ng => ng' <-- remap_mi ng true ;;
                                UnmanagedNodegroup_load ng') raw_unmanaged) ;;
  lift (EKS_init
          {| version := v_version;
             control_plane_access_cidrs := VList [];
             private_api := v_private_api;
             max_nodegroup_azs := v_max_nodegroup_azs;
             global_node_labels := v_global_node_labels;
             global_node_tags := v_global_node_tags;
             secrets_encryption_key_arn := VNone;
             managed_nodegroups := v_managed;
             unmanaged_nodegroups := v_unmanaged |}).

Definition from_0_0_0 (c : dict) : result EKS :=
  match from_0_0_0_fields c with
  | Ok (cfg, rest) => from_loader "config.eks" cfg rest
  | Err e => Err e
  end.

(** [EKS.from_0_0_1] *)
Definition from_0_0_1_fields : loader EKS :=
  v_version <- pop "version" ;;
  v_control_plane_access_cidrs <- pop "control_plane_access_cidrs" ;;
  v_private_api <- pop "private_api" ;;
  v_secrets_encryption_key_arn <-
    pop_default "secrets_encryption_key_arn" VNone ;;
  v_max_nodegroup_azs <- pop "max_nodegroup_azs" ;;
  v_global_node_labels <- pop "global_node_labels" ;;
  v_global_node_tags <- pop "global_node_tags" ;;
  raw_managed <- pop_default "managed_nodegroups" (VDict []) ;;
  v_managed <- lift (load_items ManagedNodegroup_load raw_managed) ;;
  raw_unmanaged <- pop_default "unmanaged_nodegroups" (VDict []) ;;
  v_unmanaged <- lift (load_items UnmanagedNodegroup_load raw_unmanaged) ;;
  lift (EKS_init
          {| version := v_version;
             control_plane_access_cidrs := v_control_plane_access_cidrs;
             private_api := v_private_api;
             max_nodegroup_azs := v_max_nodegroup_azs;
             global_node_labels := v_global_node_labels;
             global_node_tags := v_global_node_tags;
             secrets_encryption_key_arn := v_secrets_encryption_key_arn;
             managed_nodegroups := v_managed;
             unmanaged_nodegroups := v_unmanaged |}).

Definition from_0_0_1 (c : dict) : result EKS :=
  match from_0_0_1_fields c with
  | Ok (cfg, rest) => from_loader "config.eks" cfg rest
  | Err e => Err e
  end.

End WithIngressRules.

(** ** Entry objects bound to several names

    [from_0_0_0] writes to the nodegroup entries it is handed: [remap_mi]
    assigns two keys of an unmanaged entry and pops [machine_image] out of
    every entry, in the caller's mapping object.  A parsed document can bind
    one mapping object to several names (a YAML anchor and its aliases), and
    what is written under one name is then read under the others.

    [Shared] embeds [from_0_0_0], and [from_0_0_1], whose loaders pop from
    the entry they are handed, over a store of entry objects.  An entry of
    a nodegroup mapping is an object of the store, by address, or a value of
    its own.  The objects nested inside an entry and the top-level mapping
    are values: the code writes to nothing but entries and the top-level
    mapping, so the model covers every sharing between the entries of the two
    nodegroup mappings, and leaves out an entry object that is also nested in
    another entry or is one of the enclosing mappings. *)
Module Shared.

Definition addr : Type := nat.

(** The entry objects, by address, the latest write first; an address
    without an object reads as an empty mapping. *)
Definition store : Type := list (addr * dict).

Fixpoint lookup (a : addr) (st : store) : dict :=
  match st with
  | [] => []
  | (a', d) :: st' => if Nat.eqb a a' then d else lookup a st'
  end.

Definition update (a : addr) (d : dict) (st : store) : store := (a, d) :: st.

Inductive entry : Type :=
| Obj (a : addr)
    (* a mapping object of the store, which other names may be bound to *)
| Imm (v : value).
    (* any other value; a mapping given so is bound to this name only *)

(** What is found under [managed_nodegroups] or [nodegroups]: a mapping of
    names to entries, or a plain value. *)
Inductive groups : Type :=
| Entries (es : list (string * entry))
| Plain (v : value).

(** The argument [c] of a configuration loader: the top-level mapping
    without its two nodegroup keys, what is under each of them if the key is
    there ([unmanaged] is the value under [nodegroups] for [from_0_0_0] and
    under [unmanaged_nodegroups] for [from_0_0_1]), and the objects the
    entries refer to. *)
Record config : Type := {
  top : dict;
  managed : option groups;
  unmanaged : option groups;
  objects : store
}.

(** [c.pop(key, {}).items()] for one of the two nodegroup keys. *)
Definition items (g : option groups) : result (list (string * entry)) :=
  match g with
  | None => Ok []
  | Some (Entries es) => Ok es
  | Some (Plain (VDict d)) => Ok (map (fun kv => (fst kv, Imm (snd kv))) d)
  | Some (Plain _) => Err TypeError
  end.

(** [remap_mi]: the two assignments and the [pop] are made in the entry
    object, so an entry of the store is written back; the display
    [{**machine_image, **ng}] is a new mapping. *)
Definition remap_mi (ng : entry) (unmanaged : bool) (st : store)
  : result (value * store) :=
  match
    match ng with
    | Obj a => Ok (lookup a st)
    | Imm (VDict d) => Ok d
    | Imm _ => Err TypeError
    end
  with
  | Err e => Err e
  | Ok d =>
      let d :=
        if unmanaged
        then dict_set "ingress_ports" (VDict [])
               (dict_set "imdsv2_required" (VBool false) d)
        else d in
      match pop_default "machine_image" (VDict []) d with
      | Ok (machine_image, d') =>
          let st' :=
            match ng with
            | Obj a => update a d' st
            | Imm _ => st
            end in
          match machine_image with
          | VDict mi => Ok (VDict (dict_merge mi d'), st')
          | _ => Err TypeError
          end
      | Err e => Err e
      end
  end.

(** [{name: f(ng) for name, ng in entries}], the store threaded through
    the entries in order. *)
Fixpoint load_entries {A} (f : entry -> store -> result (A * store))
    (es : list (string * entry)) (st : store)
  : result (list (string * A) * store) :=
  match es with
  | [] => Ok ([], st)
  | (name, ng) :: es' =>
      match f ng st with
      | Err e => Err e
      | Ok (out, st1) =>
          match load_entries f es' st1 with
          | Err e => Err e
          | Ok (outs, st2) => Ok ((name, out) :: outs, st2)
          end
      end
  end.

(** [EKS.ManagedNodegroup.load(remap_mi(ng))]: the loader pops from the new
    mapping [remap_mi] returns. *)
Definition load_managed (ng : entry) (st : store)
  : result (ManagedNodegroup * store) :=
  match remap_mi ng false st with
  | Ok (ng', st') => out <-- ManagedNodegroup_load ng' ;; Ok (out, st')
  | Err e => Err e
  end.

Section WithIngressRules.

Variable load_rules : string -> value -> result (list IngressRule).

(** [EKS.UnmanagedNodegroup.load(remap_mi(ng, True))] *)
Definition load_unmanaged (ng : entry) (st : store)
  : result (UnmanagedNodegroup * store) :=
  match remap_mi ng true st with
  | Ok (ng', st') =>
      out <-- UnmanagedNodegroup_load load_rules ng' ;; Ok (out, st')
  | Err e => Err e
  end.

(** The five required [pop]s of [from_0_0_0], in the order of its keyword
    arguments. *)
Definition top_fields : loader (value * value * value * value * value) :=
  v_version <- pop "version" ;;
  v_private_api <- pop "private_api" ;;
  v_max_nodegroup_azs <- pop "max_nodegroup_azs" ;;
  v_global_node_labels <- pop "global_node_labels" ;;
  v_global_node_tags <- pop "global_node_tags" ;;
  ret (v_version, v_private_api, v_max_nodegroup_azs, v_global_node_labels,
       v_global_node_tags).

(** [EKS.from_0_0_0] *)
Definition from_0_0_0 (c : config) : result EKS :=
  match top_fields (top c) with
  | Err e => Err e
  | Ok ((v_version, v_private_api, v_max_nodegroup_azs,
         v_global_node_labels, v_global_node_tags), rest) =>
      raw_managed <-- items (managed c) ;;
      match load_entries load_managed raw_managed (objects c) with
      | Err e => Err e
      | Ok (v_managed, st1) =>
          raw_unmanaged <-- items (unmanaged c) ;;
          match load_entries load_unmanaged raw_unmanaged st1 with
          | Err e => Err e
          | Ok (v_unmanaged, _) =>
              cfg <-- EKS_init
                        {| version := v_version;
                           control_plane_access_cidrs := VList [];
                           private_api := v_private_api;
                           max_nodegroup_azs := v_max_nodegroup_azs;
                           global_node_labels := v_global_node_labels;
                           global_node_tags := v_global_node_tags;
                           secrets_encryption_key_arn := VNone;
                           managed_nodegroups := v_managed;
                           unmanaged_nodegroups := v_unmanaged |} ;;
              from_loader "config.eks" cfg rest
          end
      end
  end.

(** [EKS.ManagedNodegroup.load(ng)] and [EKS.UnmanagedNodegroup.load(ng)]
    as [from_0_0_1] calls them: the loader pops from the entry itself, so an
    entry of the store is left without the keys that were read. *)
Definition load_entry {A} (m : loader A) (thing section : string)
    (ng : entry) (st : store) : result (A * store) :=
  match ng with
  | Obj a =>
      match m (lookup a st) with
      | Ok (out, rest) =>
          _ <-- check_leavins thing section rest ;;
          Ok (out, update a rest st)
      | Err e => Err e
      end
  | Imm v => out <-- load_with m thing section v ;; Ok (out, st)
  end.

Definition load_managed_entry
  : entry -> store -> result (ManagedNodegroup * store) :=
  load_entry ManagedNodegroup_fields
    "managed nodegroup attribute" "config.eks.unmanaged_nodegroups".

Definition load_unmanaged_entry
  : entry -> store -> result (UnmanagedNodegroup * store) :=
  load_entry (UnmanagedNodegroup_fields load_rules)
    "unmanaged nodegroup attribute" "config.eks.unmanaged_nodegroups".

(** The seven top-level [pop]s of [from_0_0_1] that come before the
    nodegroups. *)
Definition top_fields_0_0_1
  : loader (value * value * value * value * value * value * value) :=
  v_version <- pop "version" ;;
  v_control_plane_access_cidrs <- pop "control_plane_access_cidrs" ;;
  v_private_api <- pop "private_api" ;;
  v_secrets_encryption_key_arn <-
    pop_default "secrets_encryption_key_arn" VNone ;;
  v_max_nodegroup_azs <- pop "max_nodegroup_azs" ;;
  v_global_node_labels <- pop "global_node_labels" ;;
  v_global_node_tags <- pop "global_node_tags" ;;
  ret (v_version, v_control_plane_access_cidrs, v_private_api,
       v_secrets_encryption_key_arn, v_max_nodegroup_azs,
       v_global_node_labels, v_global_node_tags).

(** [EKS.from_0_0_1]; [unmanaged c] is what is under
    [unmanaged_nodegroups]. *)
Definition from_0_0_1 (c : config) : result EKS :=
  match top_fields_0_0_1 (top c) with
  | Err e => Err e
  | Ok ((v_version, v_control_plane_access_cidrs, v_private_api,
         v_secrets_encryption_key_arn, v_max_nodegroup_azs,
         v_global_node_labels, v_global_node_tags), rest) =>
      raw_managed <-- items (managed c) ;;
      match load_entries load_managed_entry raw_managed (objects c) with
      | Err e => Err e
      | Ok (v_managed, st1) =>
          raw_unmanaged <-- items (unmanaged c) ;;
          match load_entries load_unmanaged_entry raw_unmanaged st1 with
          | Err e => Err e
          | Ok (v_unmanaged, _) =>
              cfg <-- EKS_init
                        {| version := v_version;
                           control_plane_access_cidrs :=
                             v_control_plane_access_cidrs;
                           private_api := v_private_api;
                           max_nodegroup_azs := v_max_nodegroup_azs;
                           global_node_labels := v_global_node_labels;
                           global_node_tags := v_global_node_tags;
                           secrets_encryption_key_arn :=
                             v_secrets_encryption_key_arn;
                           managed_nodegroups := v_managed;
                           unmanaged_nodegroups := v_unmanaged |} ;;
              from_loader "config.eks" cfg rest
          end
      end
  end.

End WithIngressRules.

End Shared.

(** ** The Kubernetes version the provisioner looks up *)

(** [s.replace(old, new)] for one-character [old] and [new]. *)
Fixpoint replace_char (old new : ascii) (s : string) : string :=
  match s with
  | EmptyString => EmptyString
  | String c s' =>
      String (if Ascii.eqb c old then new else c) (replace_char old new s')
  end.

(** [DominoEksProvisioner.__init__] of [provisioners/eks/__init__.py]: the
    attribute name [f"V{eks_cfg.version.replace('.', '_')}"] it asks
    [eks.KubernetesVersion] for.  A value without a [replace] method raises
    [AttributeError]. *)
Definition kubernetes_version_attr (v_version : value) : result string :=
  match v_version with
  | VStr s => Ok ("V" ++ replace_char "." "_" s)%string
  | _ => Err TypeError
  end.

(** * Vocabulary of the properties *)

(** What is left of [d] once the keys [ks] have been popped. *)
Definition rest (ks : list string) (d : dict) : dict :=
  filter (fun kv => negb (existsb (String.eqb (fst kv)) ks)) d.

(** [d.get(k, dflt)], the value a [pop] with a default returns. *)
Definition get_or (k : string) (dflt : value) (d : dict) : value :=
  match dict_get k d with
  | Some v => v
  | None => dflt
  end.

(** [frames m ks]: on two mappings that agree on the keys [ks], [m] raises
    the same exception or returns the same value, and what it leaves is the
    mapping without the keys [ks]. *)
Definition frames {A} (m : loader A) (ks : list string) : Prop :=
  forall d d',
    (forall k, In k ks -> dict_get k d = dict_get k d') ->
    match m d, m d' with
    | Ok (a, r), Ok (a', r') => a = a' /\ r = rest ks d /\ r' = rest ks d'
    | Err e, Err e' => e = e'
    | _, _ => False
    end.

(** The keys each loader recognises, in the order it pops them. *)
Definition base_keys : list string :=
  ["ssm_agent"; "disk_size"; "key_name"; "min_size"; "max_size"; "ami_id";
   "user_data"; "instance_types"; "labels"; "tags"].

Definition managed_keys : list string :=
  base_keys ++ ["spot"; "desired_size"].

Definition unmanaged_keys : list string :=
  base_keys ++ ["gpu"; "imdsv2_required"; "taints"; "ingress_ports"].

(** The top-level keys [from_0_0_1] pops without a default. *)
Definition required_0_0_1 : list string :=
  ["version"; "control_plane_access_cidrs"; "private_api";
   "max_nodegroup_azs"; "global_node_labels"; "global_node_tags"].

(** The rules of [__post_init__], stated one by one: [violation self msg]
    holds when [self] breaks a rule whose message is [msg]. *)
Inductive violation (self : EKS) : string -> Prop :=
| managed_without_user_data (name : string) (ng : ManagedNodegroup) :
    In (name, ng) (managed_nodegroups self) ->
    truthy (ami_id (m_base ng)) = true ->
    truthy (user_data (m_base ng)) = false ->
    violation self (user_data_msg (managed_error_name name))
| managed_incompatible (name : string) (ng : ManagedNodegroup) :
    In (name, ng) (managed_nodegroups self) ->
    truthy (ami_id (m_base ng)) = true ->
    truthy (ssm_agent (m_base ng)) = true
    \/ truthy (labels (m_base ng)) = true ->
    violation self (incompatible_msg (managed_error_name name))
| managed_min_size_zero (name : string) (ng : ManagedNodegroup) :
    In (name, ng) (managed_nodegroups self) ->
    eq_zero (min_size (m_base ng)) = true ->
    violation self (min_size_msg (managed_error_name name))
| unmanaged_without_user_data (name : string) (ng : UnmanagedNodegroup) :
    In (name, ng) (unmanaged_nodegroups self) ->
    truthy (ami_id (u_base ng)) = true ->
    truthy (user_data (u_base ng)) = false ->
    violation self (user_data_msg (unmanaged_error_name name))
| unmanaged_incompatible (name : string) (ng : UnmanagedNodegroup) :
    In (name, ng) (unmanaged_nodegroups self) ->
    truthy (ami_id (u_base ng)) = true ->
    truthy (ssm_agent (u_base ng)) = true
    \/ truthy (labels (u_base ng)) = true
    \/ truthy (taints ng) = true ->
    violation self (incompatible_msg (unmanaged_error_name name))
| access_conflict :
    truthy (control_plane_access_cidrs self) = true ->
    truthy (private_api self) = true ->
    violation self access_msg.

(** The managed nodegroup of the custom-AMI scenario, keys in the order the
    scenario lists them. *)
Definition custom_ami_nodegroup : dict :=
  [("ami_id", VStr "ami-123"); ("user_data", VStr "");
   ("ssm_agent", VBool true); ("labels", VDict [("a", VStr "b")]);
   ("min_size", VInt 1); ("max_size", VInt 2); ("disk_size", VInt 100);
   ("instance_types", VList [VStr "m5.large"]); ("tags", VDict []);
   ("spot", VBool false); ("desired_size", VInt 1)].

(** A current-schema configuration around one managed nodegroup. *)
Definition config_with_managed (name : string) (ng : dict) : dict :=
  [("version", VStr "1.20");
   ("control_plane_access_cidrs", VList [VStr "0.0.0.0/0"]);
   ("private_api", VBool false);
   ("max_nodegroup_azs", VInt 3);
   ("global_node_labels", VDict []);
   ("global_node_tags", VDict []);
   ("managed_nodegroups", VDict [(name, VDict ng)])].

(** A managed nodegroup whose sizes are positive but out of order. *)
Definition unordered_sizes_nodegroup : dict :=
  [("ssm_agent", VBool false); ("disk_size", VInt 100);
   ("min_size", VInt 5); ("max_size", VInt 2);
   ("instance_types", VList [VStr "m5.large"]);
   ("labels", VDict []); ("tags", VDict []);
   ("spot", VBool false); ("desired_size", VInt 9)].

(** A stand-in for [IngressRule.load_rules] that accepts every value and
    yields no rule; the configurations below use it where a loader is
    required. *)
Definition no_rules (_ : string) (_ : value) : result (list IngressRule) :=
  Ok [].

(** A managed nodegroup without a custom AMI, as a raw mapping and as the
    object it loads to. *)
Definition plain_nodegroup_raw (v_min_size : Z) : dict :=
  [("ssm_agent", VBool false); ("disk_size", VInt 100);
   ("min_size", VInt v_min_size); ("max_size", VInt 10);
   ("instance_types", VList [VStr "m5.large"]);
   ("labels", VDict []); ("tags", VDict []);
   ("spot", VBool false); ("desired_size", VInt 1)].

Definition plain_base (v_min_size : Z) : NodegroupBase :=
  {| ssm_agent := VBool false; disk_size := VInt 100; key_name := VNone;
     min_size := VInt v_min_size; max_size := VInt 10; ami_id := VNone;
     user_data := VNone; instance_types := VList [VStr "m5.large"];
     labels := VDict []; tags := VDict [] |}.

Definition plain_nodegroup (v_min_size : Z) : ManagedNodegroup :=
  {| m_base := plain_base v_min_size; spot := VBool false;
     desired_size := VInt 1 |}.

(** The object [config_with_managed] loads to. *)
Definition eks_with_managed (name : string) (ng : ManagedNodegroup) : EKS :=
  {| version := VStr "1.20";
     control_plane_access_cidrs := VList [VStr "0.0.0.0/0"];
     private_api := VBool false;
     max_nodegroup_azs := VInt 3;
     global_node_labels := VDict [];
     global_node_tags := VDict [];
     secrets_encryption_key_arn := VNone;
     managed_nodegroups := [(name, ng)];
     unmanaged_nodegroups := [] |}.

(** A 0.0.0-schema configuration with one managed and one unmanaged
    nodegroup. *)
Definition legacy_config (managed unmanaged : dict) : dict :=
  [("version", VStr "1.19");
   ("private_api", VBool false);
   ("max_nodegroup_azs", VInt 3);
   ("global_node_labels", VDict []);
   ("global_node_tags", VDict []);
   ("managed_nodegroups", VDict [("workers", VDict managed)]);
   ("nodegroups", VDict [("platform", VDict unmanaged)])].

Definition legacy_machine_image : dict :=
  [("ami_id", VStr "ami-nested"); ("user_data", VStr "#!/bin/sh")].

(** A 0.0.0 managed nodegroup whose AMI comes from [machine_image] only. *)
Definition legacy_managed : dict :=
  [("machine_image", VDict legacy_machine_image);
   ("ssm_agent", VBool false); ("disk_size", VInt 100);
   ("min_size", VInt 1); ("max_size", VInt 10);
   ("instance_types", VList [VStr "m5.large"]);
   ("labels", VDict []); ("tags", VDict []);
   ("spot", VBool false); ("desired_size", VInt 1)].

(** A 0.0.0 unmanaged nodegroup that asks for IMDSv2. *)
Definition legacy_unmanaged : dict :=
  [("ssm_agent", VBool false); ("disk_size", VInt 100);
   ("min_size", VInt 0); ("max_size", VInt 10);
   ("instance_types", VList [VStr "m5.large"]);
   ("labels", VDict []); ("tags", VDict []);
   ("gpu", VBool false); ("imdsv2_required", VBool true)].

(** The keys each loader pops without a default, in the order it pops
    them. *)
Definition base_required : list string :=
  ["ssm_agent"; "disk_size"; "min_size"; "max_size"; "instance_types";
   "labels"; "tags"].

Definition managed_required : list string :=
  base_required ++ ["spot"; "desired_size"].

Definition unmanaged_required : list string :=
  base_required ++ ["gpu"; "imdsv2_required"; "ingress_ports"].

(** The top-level keys [from_0_0_0] pops without a default. *)
Definition required_0_0_0 : list string :=
  ["version"; "private_api"; "max_nodegroup_azs"; "global_node_labels";
   "global_node_tags"].

(** The first key of [ks] that [d] does not have. *)
Fixpoint first_missing (ks : list string) (d : dict) : option string :=
  match ks with
  | [] => None
  | k :: ks' => if dict_mem k d then first_missing ks' d else Some k
  end.

(** The objects a mapping stands for, field by field; an absent key reads
    as [None]. *)
Definition base_of (d : dict) : NodegroupBase :=
  {| ssm_agent := get_or "ssm_agent" VNone d;
     disk_size := get_or "disk_size" VNone d;
     key_name := get_or "key_name" VNone d;
     min_size := get_or "min_size" VNone d;
     max_size := get_or "max_size" VNone d;
     ami_id := get_or "ami_id" VNone d;
     user_data := get_or "user_data" VNone d;
     instance_types := get_or "instance_types" VNone d;
     labels := get_or "labels" VNone d;
     tags := get_or "tags" VNone d |}.

Definition managed_of (d : dict) : ManagedNodegroup :=
  {| m_base := base_of d;
     spot := get_or "spot" VNone d;
     desired_size := get_or "desired_size" VNone d |}.

(** Two nodegroups that validation cannot tell apart: the same name, and
    the same truth value in every field [__post_init__] tests. *)
Definition same_checked_base (b b' : NodegroupBase) : Prop :=
  truthy (ami_id b) = truthy (ami_id b')
  /\ truthy (user_data b) = truthy (user_data b')
  /\ truthy (ssm_agent b) = truthy (ssm_agent b')
  /\ truthy (labels b) = truthy (labels b').

Definition same_checked_managed
    (x y : string * ManagedNodegroup) : Prop :=
  fst x = fst y
  /\ same_checked_base (m_base (snd x)) (m_base (snd y))
  /\ eq_zero (min_size (m_base (snd x))) = eq_zero (min_size (m_base (snd y))).

Definition same_checked_unmanaged
    (x y : string * UnmanagedNodegroup) : Prop :=
  fst x = fst y
  /\ same_checked_base (u_base (snd x)) (u_base (snd y))
  /\ truthy (taints (snd x)) = truthy (taints (snd y)).

(** The top-level keys each configuration loader pops. *)
Definition top_keys_0_0_1 : list string :=
  ["version"; "control_plane_access_cidrs"; "private_api";
   "secrets_encryption_key_arn"; "max_nodegroup_azs"; "global_node_labels";
   "global_node_tags"; "managed_nodegroups"; "unmanaged_nodegroups"].

Definition top_keys_0_0_0 : list string :=
  ["version"; "private_api"; "max_nodegroup_azs"; "global_node_labels";
   "global_node_tags"; "managed_nodegroups"; "nodegroups"].

(** The arguments [from_0_0_1] and [from_0_0_0] give the [EKS] constructor,
    once the nodegroups are loaded. *)
Definition fields_0_0_1 (c : dict)
    (managed : list (string * ManagedNodegroup))
    (unmanaged : list (string * UnmanagedNodegroup)) : EKS :=
  {| version := get_or "version" VNone c;
     control_plane_access_cidrs := get_or "control_plane_access_cidrs" VNone c;
     private_api := get_or "private_api" VNone c;
     max_nodegroup_azs := get_or "max_nodegroup_azs" VNone c;
     global_node_labels := get_or "global_node_labels" VNone c;
     global_node_tags := get_or "global_node_tags" VNone c;
     secrets_encryption_key_arn := get_or "secrets_encryption_key_arn" VNone c;
     managed_nodegroups := managed;
     unmanaged_nodegroups := unmanaged |}.

Definition fields_0_0_0 (c : dict)
    (managed : list (string * ManagedNodegroup))
    (unmanaged : list (string * UnmanagedNodegroup)) : EKS :=
  {| version := get_or "version" VNone c;
     control_plane_access_cidrs := VList [];
     private_api := get_or "private_api" VNone c;
     max_nodegroup_azs := get_or "max_nodegroup_azs" VNone c;
     global_node_labels := get_or "global_node_labels" VNone c;
     global_node_tags := get_or "global_node_tags" VNone c;
     secrets_encryption_key_arn := VNone;
     managed_nodegroups := managed;
     unmanaged_nodegroups := unmanaged |}.

(** The last character of a string. *)
Fixpoint last_char (s : string) : option ascii :=
  match s with
  | EmptyString => None
  | String c s' =>
      match s' with
      | EmptyString => Some c
      | String _ _ => last_char s'
      end
  end.

(** An unmanaged nodegroup entry of the current schema, and a second
    managed nodegroup that differs from [plain_nodegroup] only in fields
    validation does not read. *)
Definition plain_unmanaged_raw : dict :=
  [("ssm_agent", VBool false); ("disk_size", VInt 100);
   ("min_size", VInt 0); ("max_size", VInt 10);
   ("instance_types", VList [VStr "m5.large"]);
   ("labels", VDict []); ("tags", VDict []);
   ("gpu", VBool false); ("imdsv2_required", VBool true);
   ("ingress_ports", VList [])].

Definition spot_nodegroup : ManagedNodegroup :=
  {| m_base :=
       {| ssm_agent := VBool false; disk_size := VInt 500;
          key_name := VStr "ops"; min_size := VInt 3; max_size := VInt 4;
          ami_id := VStr ""; user_data := VNone;
          instance_types := VList [VStr "c5.xlarge"];
          labels := VDict []; tags := VDict [("team", VStr "ml")] |};
     spot := VBool true; desired_size := VInt 3 |}.

(** A current-schema configuration whose [managed_nodegroups] key is there
    with nothing under it, and the custom-AMI configuration with a
    top-level key no loader knows. *)
Definition config_with_null_nodegroups : dict :=
  [("version", VStr "1.20");
   ("control_plane_access_cidrs", VList [VStr "0.0.0.0/0"]);
   ("private_api", VBool false);
   ("max_nodegroup_azs", VInt 3);
   ("global_node_labels", VDict []);
   ("global_node_tags", VDict []);
   ("managed_nodegroups", VNone)].

Definition config_with_unknown_key : dict :=
  config_with_managed "workers" custom_ami_nodegroup
  ++ [("colour", VStr "blue")].



(** The addresses the entries [es] are bound to, in order. *)
Definition addrs (es : list (string * Shared.entry)) : list Shared.addr :=
  flat_map (fun item => match snd item with
                        | Shared.Obj a => [a]
                        | Shared.Imm _ => []
                        end) es.

(** The entries of a nodegroup mapping, none when there is no mapping. *)
Definition entries_of (g : option Shared.groups)
  : list (string * Shared.entry) :=
  match Shared.items g with
  | Ok es => es
  | Err _ => []
  end.





(** No entry object is bound to two names. *)
Definition unshared (c : Shared.config) : Prop :=
  NoDup (addrs (entries_of (Shared.managed c))
         ++ addrs (entries_of (Shared.unmanaged c))).






(** A current-schema configuration that binds one entry object to two
    names, and one whose nodegroups are objects of their own. *)
Definition current_top : dict :=
  [("version", VStr "1.20");
   ("control_plane_access_cidrs", VList [VStr "0.0.0.0/0"]);
   ("private_api", VBool false);
   ("max_nodegroup_azs", VInt 3);
   ("global_node_labels", VDict []);
   ("global_node_tags", VDict [])].

Definition current_shared_config : Shared.config :=
  {| Shared.top := current_top;
     Shared.managed :=
       Some (Shared.Entries [("workers", Shared.Obj 0);
                             ("spare", Shared.Obj 0)]);
     Shared.unmanaged := None;
     Shared.objects := [(0, plain_nodegroup_raw 1)] |}.

Definition current_objects_config : Shared.config :=
  {| Shared.top := current_top;
     Shared.managed := Some (Shared.Entries [("workers", Shared.Obj 0)]);
     Shared.unmanaged := Some (Shared.Entries [("platform", Shared.Obj 1)]);
     Shared.objects := [(0, plain_nodegroup_raw 1); (1, plain_unmanaged_raw)] |}.

(** Three managed entries: one that loads, one that is no mapping, one
    that lacks every key. *)
Definition entries_with_failures : dict :=
  [("first", VDict (plain_nodegroup_raw 1)); ("second", VNone);
   ("third", VDict [])].

(** * Properties *)

(** ** Dictionaries *)

Lemma dict_get_app (k : string) (a b : dict) :
  dict_get k (a ++ b) =
  match dict_get k a with
  | Some v => Some v
  | None => dict_get k b
  end.
Proof.
  induction a as [|[k' v'] a IH]; simpl; [reflexivity|].
  now destruct (String.eqb k k').
Qed.

Lemma dict_get_filter (g : string -> bool) (k : string) (d : dict) :
  dict_get k (filter (fun kv => g (fst kv)) d) =
  if g k then dict_get k d else None.
Proof.
  induction d as [|[k' v'] d IH]; simpl.
  - now destruct (g k).
  - destruct (String.eqb k k') eqn:E.
    + apply String.eqb_eq in E. subst k'.
      destruct (g k) eqn:G; simpl.
      * now rewrite String.eqb_refl.
      * exact IH.
    + destruct (g k'); simpl; [rewrite E|]; exact IH.
Qed.

Lemma rest_nil (d : dict) : rest [] d = d.
Proof.
  unfold rest. induction d as [|kv d IH]; simpl in *; congruence.
Qed.

Lemma rest_app (ks1 ks2 : list string) (d : dict) :
  rest ks2 (rest ks1 d) = rest (ks1 ++ ks2) d.
Proof.
  unfold rest. induction d as [|kv d IH]; simpl; [reflexivity|].
  rewrite existsb_app.
  destruct (existsb (String.eqb (fst kv)) ks1); simpl.
  - exact IH.
  - destruct (existsb (String.eqb (fst kv)) ks2); simpl; now rewrite IH.
Qed.

Lemma rest_insert (ks : list string) (k : string) (v : value) (l1 l2 : dict) :
  rest ks (l1 ++ (k, v) :: l2) =
  rest ks l1 ++ (if existsb (String.eqb k) ks then [] else [(k, v)])
            ++ rest ks l2.
Proof.
  unfold rest. rewrite filter_app. simpl.
  now destruct (existsb (String.eqb k) ks).
Qed.

Lemma dict_del_rest (k : string) (d : dict) : dict_del k d = rest [k] d.
Proof.
  unfold dict_del, rest. apply filter_ext. intros kv. simpl.
  rewrite orb_false_r. now rewrite String.eqb_sym.
Qed.

Lemma dict_get_rest (k : string) (ks : list string) (d : dict) :
  dict_get k (rest ks d) =
  if existsb (String.eqb k) ks then None else dict_get k d.
Proof.
  unfold rest.
  rewrite (dict_get_filter (fun k' => negb (existsb (String.eqb k') ks))).
  now destruct (existsb (String.eqb k) ks).
Qed.

Lemma existsb_eqb_In (k : string) (ks : list string) :
  existsb (String.eqb k) ks = true <-> In k ks.
Proof.
  rewrite existsb_exists. split.
  - intros [x [Hin E]]. apply String.eqb_eq in E. now subst.
  - intros Hin. exists k. split; [exact Hin | apply String.eqb_refl].
Qed.

Lemma existsb_eqb_notin (k : string) (ks : list string) :
  ~ In k ks -> existsb (String.eqb k) ks = false.
Proof.
  intros N. destruct (existsb (String.eqb k) ks) eqn:E; [|reflexivity].
  apply existsb_eqb_In in E. contradiction.
Qed.

Lemma dict_get_In (k : string) (v : value) (d : dict) :
  dict_get k d = Some v -> In (k, v) d.
Proof.
  induction d as [|[k' v'] d IH]; simpl; [discriminate|].
  destruct (String.eqb k k') eqn:E.
  - apply String.eqb_eq in E. intros [= ->]. left. now subst.
  - intros H. right. now apply IH.
Qed.

Lemma dict_get_None_keys (k : string) (d : dict) :
  dict_get k d = None <-> ~ In k (keys d).
Proof.
  unfold keys. induction d as [|[k' v'] d IH]; simpl.
  - tauto.
  - destruct (String.eqb k k') eqn:E.
    + apply String.eqb_eq in E. subst. split; [discriminate | tauto].
    + apply String.eqb_neq in E. rewrite IH. split.
      * intros H [H1 | H1]; [now apply E | now apply H].
      * tauto.
Qed.

Lemma dict_get_insert_other (k k' : string) (v : value) (l1 l2 : dict) :
  k <> k' ->
  dict_get k (l1 ++ (k', v) :: l2) = dict_get k (l1 ++ l2).
Proof.
  intros N. apply String.eqb_neq in N.
  rewrite !dict_get_app. simpl. now rewrite N.
Qed.

Lemma dict_get_set_same (k : string) (v : value) (d : dict) :
  dict_get k (dict_set k v d) = Some v.
Proof.
  unfold dict_set, dict_mem.
  destruct (dict_get k d) eqn:G.
  - induction d as [|[k' v'] d IH]; simpl in *; [discriminate|].
    destruct (String.eqb k k') eqn:E; simpl.
    + now rewrite String.eqb_refl.
    + rewrite E. now apply IH.
  - rewrite dict_get_app, G. simpl. now rewrite String.eqb_refl.
Qed.

Lemma dict_get_set_other (k k' : string) (v : value) (d : dict) :
  k <> k' -> dict_get k (dict_set k' v d) = dict_get k d.
Proof.
  intros N. unfold dict_set.
  destruct (dict_mem k' d).
  - induction d as [|[k1 v1] d IH]; simpl; [reflexivity|].
    destruct (String.eqb k' k1) eqn:E; simpl.
    + apply String.eqb_eq in E. subst k1.
      apply String.eqb_neq in N. rewrite N. exact IH.
    + now rewrite IH.
  - rewrite dict_get_app. simpl.
    apply String.eqb_neq in N. rewrite N. now destruct (dict_get k d).
Qed.

Lemma dict_get_override (k : string) (a b : dict) :
  dict_get k (map (fun kv => match dict_get (fst kv) b with
                             | Some v => (fst kv, v)
                             | None => kv
                             end) a) =
  match dict_get k a with
  | Some va => Some (match dict_get k b with Some vb => vb | None => va end)
  | None => None
  end.
Proof.
  induction a as [|[k' v'] a IH]; simpl; [reflexivity|].
  destruct (String.eqb k k') eqn:E.
  - apply String.eqb_eq in E. subst k'.
    destruct (dict_get k b); simpl; now rewrite String.eqb_refl.
  - destruct (dict_get k' b); simpl; rewrite E; exact IH.
Qed.

Lemma dict_get_merge (k : string) (a b : dict) :
  dict_get k (dict_merge a b) =
  match dict_get k b with
  | Some v => Some v
  | None => dict_get k a
  end.
Proof.
  unfold dict_merge.
  rewrite dict_get_app, dict_get_override.
  rewrite (dict_get_filter (fun k' => negb (dict_mem k' a))).
  unfold dict_mem.
  destruct (dict_get k a), (dict_get k b); reflexivity.
Qed.

(** The operations keep keys unique, as a Python [dict] does; on such
    mappings they are [pop], item assignment and [{**a, **b}]. *)
Lemma keys_dict_del (k : string) (d : dict) :
  keys (dict_del k d) = filter (fun k' => negb (String.eqb k k')) (keys d).
Proof.
  unfold keys, dict_del. induction d as [|[k' v'] d IH]; simpl; [reflexivity|].
  destruct (String.eqb k k'); simpl; now rewrite IH.
Qed.

Lemma NoDup_dict_del (k : string) (d : dict) :
  NoDup (keys d) -> NoDup (keys (dict_del k d)).
Proof. intros H. rewrite keys_dict_del. now apply NoDup_filter. Qed.

Lemma NoDup_dict_set (k : string) (v : value) (d : dict) :
  NoDup (keys d) -> NoDup (keys (dict_set k v d)).
Proof.
  intros H. unfold dict_set, dict_mem.
  destruct (dict_get k d) eqn:G.
  - assert (E : keys (map (fun kv => if String.eqb k (fst kv)
                                     then (k, v) else kv) d) = keys d).
    { unfold keys. rewrite map_map. apply map_ext. intros [k' v']. simpl.
      destruct (String.eqb k k') eqn:Ek; [|reflexivity].
      apply String.eqb_eq in Ek. now subst. }
    now rewrite E.
  - apply dict_get_None_keys in G. unfold keys in *. rewrite map_app. simpl.
    apply NoDup_app; [exact H | repeat constructor; intros [] | ].
    intros k' Hin [<- | []]. contradiction.
Qed.

Lemma NoDup_dict_merge (a b : dict) :
  NoDup (keys a) -> NoDup (keys b) -> NoDup (keys (dict_merge a b)).
Proof.
  intros Ha Hb. unfold dict_merge, keys. rewrite map_app.
  assert (E : map fst (map (fun kv => match dict_get (fst kv) b with
                                      | Some v => (fst kv, v)
                                      | None => kv
                                      end) a) = map fst a).
  { rewrite map_map. apply map_ext. intros [k' v']. simpl.
    now destruct (dict_get k' b). }
  rewrite E. apply NoDup_app; [exact Ha | |].
  - clear E Ha. induction b as [|[k' v'] b IH]; simpl; [constructor|].
    inversion Hb as [|x l Hx Hl]; subst.
    destruct (dict_mem k' a); simpl; [now apply IH|].
    constructor; [|now apply IH].
    intros Hin. apply Hx. apply in_map_iff in Hin.
    destruct Hin as ([k2 v2] & <- & Hf). apply filter_In in Hf.
    apply in_map_iff. exists (k2, v2). tauto.
  - intros k Hka Hkb. apply in_map_iff in Hkb.
    destruct Hkb as ([k2 v2] & <- & Hf). apply filter_In in Hf.
    destruct Hf as [_ Hf]. simpl in *. unfold dict_mem in Hf.
    destruct (dict_get k2 a) eqn:G; [discriminate|].
    apply dict_get_None_keys in G. contradiction.
Qed.

Lemma dict_del_rest_cons (k : string) (ks : list string) (d : dict) :
  dict_del k (rest ks d) = rest (k :: ks) d.
Proof.
  unfold dict_del, rest. induction d as [|[k' v'] d IH]; simpl; [reflexivity|].
  rewrite (String.eqb_sym k' k).
  destruct (existsb (String.eqb k') ks); simpl.
  - rewrite orb_true_r. simpl. exact IH.
  - rewrite orb_false_r.
    destruct (String.eqb k k'); simpl; now rewrite IH.
Qed.

Lemma rest_absent (k : string) (ks : list string) (d : dict) :
  dict_get k d = None -> rest (k :: ks) d = rest ks d.
Proof.
  intros G. unfold rest. apply filter_ext_in. intros [k' v'] Hin. simpl.
  destruct (String.eqb k' k) eqn:E; [|reflexivity].
  apply String.eqb_eq in E. subst k'.
  apply dict_get_None_keys in G. exfalso. apply G.
  unfold keys. apply in_map_iff. now exists (k, v').
Qed.

(** ** Stepping a loader

    One [pop] at a time: the value comes from the original mapping and the
    working mapping stays of the form [rest ks d]. *)

Lemma bind_pop_start {A} (k : string) (f : value -> loader A) (d : dict) :
  bind (pop k) f d =
  match dict_get k d with
  | Some v => f v (rest [k] d)
  | None => Err (KeyError k)
  end.
Proof.
  unfold bind, pop. rewrite dict_del_rest. now destruct (dict_get k d).
Qed.

Lemma bind_pop_rest {A} (k : string) (ks : list string)
    (f : value -> loader A) (d : dict) :
  existsb (String.eqb k) ks = false ->
  bind (pop k) f (rest ks d) =
  match dict_get k d with
  | Some v => f v (rest (k :: ks) d)
  | None => Err (KeyError k)
  end.
Proof.
  intros N. unfold bind, pop.
  rewrite dict_get_rest, N, dict_del_rest_cons.
  now destruct (dict_get k d).
Qed.

Lemma bind_pop_default_start {A} (k : string) (dflt : value)
    (f : value -> loader A) (d : dict) :
  bind (pop_default k dflt) f d = f (get_or k dflt d) (rest [k] d).
Proof.
  unfold bind, pop_default, get_or. rewrite dict_del_rest.
  destruct (dict_get k d) eqn:G; [reflexivity|].
  rewrite (rest_absent k [] d G), rest_nil. reflexivity.
Qed.

Lemma bind_pop_default_rest {A} (k : string) (dflt : value)
    (ks : list string) (f : value -> loader A) (d : dict) :
  existsb (String.eqb k) ks = false ->
  bind (pop_default k dflt) f (rest ks d) =
  f (get_or k dflt d) (rest (k :: ks) d).
Proof.
  intros N. unfold bind, pop_default, get_or.
  rewrite dict_get_rest, N, dict_del_rest_cons.
  destruct (dict_get k d) eqn:G; [reflexivity|].
  now rewrite (rest_absent k ks d G).
Qed.

Lemma bind_lift {A B} (r : result A) (f : A -> loader B) (d : dict) :
  bind (lift r) f d =
  match r with
  | Ok a => f a d
  | Err e => Err e
  end.
Proof. unfold bind, lift. now destruct r. Qed.

Lemma bind_assoc {A B C} (m : loader A) (f : A -> loader B)
    (g : B -> loader C) (d : dict) :
  bind (bind m f) g d = bind m (fun a => bind (f a) g) d.
Proof. unfold bind. destruct (m d) as [[a d']|e]; reflexivity. Qed.

Lemma bind_ret {A B} (a : A) (f : A -> loader B) (d : dict) :
  bind (ret a) f d = f a d.
Proof. reflexivity. Qed.

(** ** Framing: a loader reads and consumes a fixed set of keys *)

Lemma frames_ret {A} (a : A) : frames (ret a) [].
Proof.
  intros d d' _. unfold ret. now rewrite !rest_nil.
Qed.

Lemma frames_lift {A} (r : result A) : frames (lift r) [].
Proof.
  intros d d' _. unfold lift. destruct r; [|reflexivity].
  now rewrite !rest_nil.
Qed.

Lemma frames_pop (k : string) : frames (pop k) [k].
Proof.
  intros d d' H. unfold pop. rewrite <- (H k) by (now left).
  destruct (dict_get k d); [|reflexivity].
  now rewrite !dict_del_rest.
Qed.

Lemma frames_pop_default (k : string) (dflt : value) :
  frames (pop_default k dflt) [k].
Proof.
  intros d d' H. unfold pop_default.
  pose proof (H k (or_introl eq_refl)) as E.
  destruct (dict_get k d) eqn:G; rewrite <- E.
  - now rewrite !dict_del_rest.
  - symmetry in E.
    rewrite (rest_absent k [] d G), (rest_absent k [] d' E), !rest_nil. auto.
Qed.

Lemma frames_bind {A B} (m : loader A) (f : A -> loader B)
    (ks1 ks2 : list string) :
  frames m ks1 -> (forall a, frames (f a) ks2) ->
  frames (bind m f) (ks1 ++ ks2).
Proof.
  intros Hm Hf d d' H. unfold bind.
  specialize (Hm d d' (fun k Hk => H k (in_or_app _ _ _ (or_introl Hk)))).
  destruct (m d) as [[a r]|e], (m d') as [[a' r']|e']; try contradiction;
    [|exact Hm].
  destruct Hm as [<- [-> ->]].
  assert (H2 : forall k, In k ks2 ->
               dict_get k (rest ks1 d) = dict_get k (rest ks1 d')).
  { intros k Hk. rewrite !dict_get_rest.
    now rewrite (H k (in_or_app _ _ _ (or_intror Hk))). }
  specialize (Hf a _ _ H2).
  destruct (f a (rest ks1 d)) as [[b s]|e], (f a (rest ks1 d')) as [[b' s']|e'];
    try contradiction; [|exact Hf].
  destruct Hf as [<- [-> ->]]. now rewrite !rest_app.
Qed.

Lemma frames_bind_pop {A} (k : string) (f : value -> loader A)
    (ks : list string) :
  (forall v, frames (f v) ks) -> frames (bind (pop k) f) (k :: ks).
Proof. intros H. exact (frames_bind _ _ [k] ks (frames_pop k) H). Qed.

Lemma frames_bind_pop_default {A} (k : string) (dflt : value)
    (f : value -> loader A) (ks : list string) :
  (forall v, frames (f v) ks) ->
  frames (bind (pop_default k dflt) f) (k :: ks).
Proof. intros H. exact (frames_bind _ _ [k] ks (frames_pop_default k dflt) H). Qed.

Lemma frames_bind_lift {A B} (r : result A) (f : A -> loader B)
    (ks : list string) :
  (forall a, frames (f a) ks) -> frames (bind (lift r) f) ks.
Proof. intros H. exact (frames_bind _ _ [] ks (frames_lift r) H). Qed.

Ltac frames_steps :=
  repeat first
    [ apply frames_bind_pop; intro
    | apply frames_bind_pop_default; intro
    | apply frames_bind_lift; intro
    | apply frames_ret ].

Lemma frames_base_load : frames base_load base_keys.
Proof. unfold base_load, base_keys. frames_steps. Qed.

Lemma frames_ManagedNodegroup_fields :
  frames ManagedNodegroup_fields managed_keys.
Proof.
  unfold ManagedNodegroup_fields, managed_keys.
  apply frames_bind; [exact frames_base_load | intro].
  frames_steps.
Qed.

Lemma frames_UnmanagedNodegroup_fields
    (load_rules : string -> value -> result (list IngressRule)) :
  frames (UnmanagedNodegroup_fields load_rules) unmanaged_keys.
Proof.
  unfold UnmanagedNodegroup_fields, unmanaged_keys.
  apply frames_bind; [exact frames_base_load | intro].
  frames_steps.
Qed.

(** ** Leftover keys of a nodegroup entry *)

Lemma frames_rest {A} (m : loader A) (ks : list string) (d : dict)
    (a : A) (r : dict) :
  frames m ks -> m d = Ok (a, r) -> r = rest ks d.
Proof.
  intros F E. specialize (F d d (fun _ _ => eq_refl)).
  rewrite E in F. tauto.
Qed.

Lemma rest_keeps (ks : list string) (k : string) (d : dict) :
  In k (keys d) -> ~ In k ks -> rest ks d <> [].
Proof.
  intros Hin Hks E.
  destruct (dict_get k d) as [v|] eqn:G.
  - assert (G' : dict_get k (rest ks d) = Some v).
    { rewrite dict_get_rest, (existsb_eqb_notin _ _ Hks). exact G. }
    rewrite E in G'. discriminate.
  - apply dict_get_None_keys in G. contradiction.
Qed.

(** A key no loader step pops is still there at the end, so
    [check_leavins] raises: the entry never loads. *)
Lemma load_with_unknown_key {A} (m : loader A) (ks : list string)
    (thing section : string) (d : dict) (k : string) :
  frames m ks -> In k (keys d) -> ~ In k ks ->
  forall out, load_with m thing section (VDict d) <> Ok out.
Proof.
  intros F Hin Hks out. unfold load_with.
  destruct (m d) as [[a r]|e] eqn:E; [|discriminate].
  rewrite (frames_rest m ks d a r F E).
  pose proof (rest_keeps ks k d Hin Hks) as N.
  unfold check_leavins. destruct (rest ks d); [contradiction | discriminate].
Qed.

(** An entry that loads, given one more key that the loader does not know,
    is rejected with exactly that key as the leftover. *)
Lemma load_with_extra_key {A} (m : loader A) (ks : list string)
    (thing section : string) (l1 l2 : dict) (k : string) (v : value)
    (out : A) :
  frames m ks -> ~ In k ks ->
  load_with m thing section (VDict (l1 ++ l2)) = Ok out ->
  load_with m thing section (VDict (l1 ++ (k, v) :: l2))
  = Err (ConfigError section [k]).
Proof.
  intros F Hks. unfold load_with.
  assert (Hagree : forall k', In k' ks ->
            dict_get k' (l1 ++ l2) = dict_get k' (l1 ++ (k, v) :: l2)).
  { intros k' Hk'. symmetry. apply dict_get_insert_other.
    intros ->. contradiction. }
  specialize (F _ _ Hagree).
  destruct (m (l1 ++ l2)) as [[a r]|e]; [|discriminate].
  destruct (m (l1 ++ (k, v) :: l2)) as [[a' r']|e']; [|contradiction].
  destruct F as [_ [-> ->]].
  unfold check_leavins at 1.
  destruct (rest ks (l1 ++ l2)) eqn:E; [|discriminate].
  intros _.
  rewrite rest_insert, (existsb_eqb_notin _ _ Hks).
  unfold rest in E. rewrite filter_app in E.
  apply app_eq_nil in E. destruct E as [E1 E2].
  unfold rest. rewrite E1, E2. reflexivity.
Qed.

(** ** Validation *)

Lemma truthy_py_or (a b : value) :
  truthy (py_or a b) = truthy a || truthy b.
Proof.
  unfold py_or. destruct (truthy a) eqn:E; simpl; [exact E | reflexivity].
Qed.

Lemma check_ami_exceptions_app (ng_name : string) (a u i : value)
    (errors : list string) :
  check_ami_exceptions ng_name a u i errors =
  errors ++ check_ami_exceptions ng_name a u i [].
Proof.
  unfold check_ami_exceptions.
  destruct (truthy a && negb (truthy u)), (truthy a && truthy i); simpl;
    rewrite <- ?app_assoc, ?app_nil_r; reflexivity.
Qed.

Lemma check_managed_app (errors : list string)
    (item : string * ManagedNodegroup) :
  check_managed errors item = errors ++ check_managed [] item.
Proof.
  destruct item as [name ng]. unfold check_managed.
  rewrite check_ami_exceptions_app.
  destruct (eq_zero (min_size (m_base ng))); simpl;
    rewrite <- ?app_assoc, ?app_nil_r; reflexivity.
Qed.

Lemma check_unmanaged_app (errors : list string)
    (item : string * UnmanagedNodegroup) :
  check_unmanaged errors item = errors ++ check_unmanaged [] item.
Proof.
  destruct item as [name ng]. unfold check_unmanaged.
  apply check_ami_exceptions_app.
Qed.

(** A loop that only appends is the concatenation of what each turn adds. *)
Lemma fold_left_appending {A} (step : list string -> A -> list string)
    (l : list A) (errors : list string) :
  (forall errs x, step errs x = errs ++ step [] x) ->
  fold_left step l errors = errors ++ flat_map (step []) l.
Proof.
  intros Hstep. revert errors.
  induction l as [|x l IH]; intros errors; simpl.
  - now rewrite app_nil_r.
  - rewrite IH, Hstep, <- app_assoc. reflexivity.
Qed.

Lemma validation_errors_eq (self : EKS) :
  validation_errors self =
  flat_map (check_managed []) (managed_nodegroups self)
  ++ flat_map (check_unmanaged []) (unmanaged_nodegroups self)
  ++ (if truthy (control_plane_access_cidrs self)
         && truthy (private_api self)
      then [access_msg] else []).
Proof.
  unfold validation_errors.
  rewrite (fold_left_appending check_unmanaged _ _ check_unmanaged_app).
  rewrite (fold_left_appending check_managed _ _ check_managed_app).
  simpl.
  destruct (truthy (control_plane_access_cidrs self)
            && truthy (private_api self));
    rewrite <- ?app_assoc, ?app_nil_r; reflexivity.
Qed.

Lemma in_check_ami_exceptions (ng_name : string) (a u i : value)
    (msg : string) :
  In msg (check_ami_exceptions ng_name a u i []) <->
  (truthy a = true /\ truthy u = false /\ msg = user_data_msg ng_name)
  \/ (truthy a = true /\ truthy i = true /\ msg = incompatible_msg ng_name).
Proof.
  unfold check_ami_exceptions.
  destruct (truthy a), (truthy u), (truthy i); simpl;
    intuition (try discriminate; auto).
Qed.

Lemma in_check_managed (name : string) (ng : ManagedNodegroup)
    (msg : string) :
  In msg (check_managed [] (name, ng)) <->
  (truthy (ami_id (m_base ng)) = true
   /\ truthy (user_data (m_base ng)) = false
   /\ msg = user_data_msg (managed_error_name name))
  \/ (truthy (ami_id (m_base ng)) = true
      /\ (truthy (ssm_agent (m_base ng)) = true
          \/ truthy (labels (m_base ng)) = true)
      /\ msg = incompatible_msg (managed_error_name name))
  \/ (eq_zero (min_size (m_base ng)) = true
      /\ msg = min_size_msg (managed_error_name name)).
Proof.
  unfold check_managed.
  assert (Hin : In msg
            (check_ami_exceptions (managed_error_name name)
               (ami_id (m_base ng)) (user_data (m_base ng))
               (py_or (ssm_agent (m_base ng)) (labels (m_base ng))) []
             ++ (if eq_zero (min_size (m_base ng))
                 then [min_size_msg (managed_error_name name)] else []))
          <-> In msg
                (if eq_zero (min_size (m_base ng))
                 then check_ami_exceptions (managed_error_name name)
                        (ami_id (m_base ng)) (user_data (m_base ng))
                        (py_or (ssm_agent (m_base ng)) (labels (m_base ng)))
                        []
                      ++ [min_size_msg (managed_error_name name)]
                 else check_ami_exceptions (managed_error_name name)
                        (ami_id (m_base ng)) (user_data (m_base ng))
                        (py_or (ssm_agent (m_base ng)) (labels (m_base ng)))
                        [])).
  { destruct (eq_zero (min_size (m_base ng))); [tauto|].
    now rewrite app_nil_r. }
  rewrite <- Hin, in_app_iff, in_check_ami_exceptions, truthy_py_or,
    orb_true_iff.
  destruct (eq_zero (min_size (m_base ng))); simpl;
    intuition (try discriminate; auto).
Qed.

Lemma in_check_unmanaged (name : string) (ng : UnmanagedNodegroup)
    (msg : string) :
  In msg (check_unmanaged [] (name, ng)) <->
  (truthy (ami_id (u_base ng)) = true
   /\ truthy (user_data (u_base ng)) = false
   /\ msg = user_data_msg (unmanaged_error_name name))
  \/ (truthy (ami_id (u_base ng)) = true
      /\ (truthy (ssm_agent (u_base ng)) = true
          \/ truthy (labels (u_base ng)) = true
          \/ truthy (taints ng) = true)
      /\ msg = incompatible_msg (unmanaged_error_name name)).
Proof.
  unfold check_unmanaged.
  rewrite in_check_ami_exceptions, !truthy_py_or, !orb_true_iff.
  tauto.
Qed.

(** The list [__post_init__] builds holds exactly the messages of the rules
    that are broken. *)
Lemma validation_errors_spec (self : EKS) (msg : string) :
  In msg (validation_errors self) <-> violation self msg.
Proof.
  rewrite validation_errors_eq, !in_app_iff, !in_flat_map. split.
  - intros [[[name ng] [Hin H]] | [[[name ng] [Hin H]] | H]].
    + apply in_check_managed in H.
      destruct H as [[Ha [Hu ->]] | [[Ha [Hi ->]] | [Hz ->]]];
        eauto using violation.
    + apply in_check_unmanaged in H.
      destruct H as [[Ha [Hu ->]] | [Ha [Hi ->]]]; eauto using violation.
    + destruct (truthy (control_plane_access_cidrs self)) eqn:Ec;
        destruct (truthy (private_api self)) eqn:Ep; simpl in H;
        try contradiction.
      destruct H as [<- | []]. now constructor.
  - intros V. destruct V as [name ng Hin Ha Hu | name ng Hin Ha Hi
                            | name ng Hin Hz | name ng Hin Ha Hu
                            | name ng Hin Ha Hi | Hc Hp].
    + left. exists (name, ng). split; [exact Hin|].
      apply in_check_managed. auto.
    + left. exists (name, ng). split; [exact Hin|].
      apply in_check_managed. auto.
    + left. exists (name, ng). split; [exact Hin|].
      apply in_check_managed. auto.
    + right. left. exists (name, ng). split; [exact Hin|].
      apply in_check_unmanaged. auto.
    + right. left. exists (name, ng). split; [exact Hin|].
      apply in_check_unmanaged. auto.
    + right. right. rewrite Hc, Hp. simpl. auto.
Qed.

Lemma post_init_cases (self : EKS) :
  (validation_errors self = [] /\ post_init self = Ok tt)
  \/ (validation_errors self <> []
      /\ post_init self = Err (ValueError (validation_errors self))).
Proof.
  unfold post_init. destruct (validation_errors self) as [|m l].
  - left. split; reflexivity.
  - right. split; [discriminate | reflexivity].
Qed.

Ltac msg_clash H :=
  unfold user_data_msg, incompatible_msg, min_size_msg, access_msg,
    managed_error_name, unmanaged_error_name in H;
  simpl in H; discriminate H.

(** C2.  [__post_init__] checks every rule on every nodegroup and the access
    rule before it raises: it succeeds exactly when no rule is broken, it
    raises exactly when some rule is broken, and what it raises is a single
    [ValueError] whose list holds the message of every broken rule and
    nothing else.  Construction returns the object exactly when validation
    succeeds and otherwise raises what validation raised. *)
Theorem post_init_reports_every_violation (self : EKS) :
  (post_init self = Ok tt <-> forall msg, ~ violation self msg)
  /\ ((exists msg, violation self msg) <->
      exists errors, post_init self = Err (ValueError errors))
  /\ (forall e, post_init self = Err e ->
        exists errors,
          e = ValueError errors /\ errors <> []
          /\ forall msg, In msg errors <-> violation self msg)
  /\ (EKS_init self = Ok self <-> forall msg, ~ violation self msg)
  /\ (forall e, EKS_init self = Err e <-> post_init self = Err e).
Proof.
  pose proof (validation_errors_spec self) as Hspec.
  destruct (post_init_cases self) as [[Hnil Hok] | [Hne Herr]].
  - assert (Hnone : forall msg, ~ violation self msg).
    { intros msg V. apply Hspec in V. rewrite Hnil in V. exact V. }
    unfold EKS_init. rewrite Hok. simpl.
    repeat split; try (intros; auto; fail); try discriminate.
    + intros [msg V]. exfalso. exact (Hnone msg V).
    + intros [errors H]. discriminate.
  - assert (Hsome : exists msg, violation self msg).
    { destruct (validation_errors self) as [|m l] eqn:E; [congruence|].
      exists m. apply Hspec. now left. }
    unfold EKS_init. rewrite Herr. simpl.
    repeat split; try discriminate; try (intros; auto; fail).
    + intros Hnone. destruct Hsome as [msg V]. exfalso. exact (Hnone msg V).
    + intros _. eauto.
    + intros e [= <-]. exists (validation_errors self). auto.
    + intros Hnone. destruct Hsome as [msg V]. exfalso. exact (Hnone msg V).
    + intros [= <-]. reflexivity.
    + intros [= <-]. reflexivity.
Qed.

(** C3, as the code has it.  In an [EKS] object whose construction raised
    nothing, no managed nodegroup has a [min_size] equal to [0]; a negative
    [min_size] is not rejected. *)
Theorem constructed_managed_min_size_nonzero (self e : EKS) :
  EKS_init self = Ok e ->
  forall name ng,
    In (name, ng) (managed_nodegroups e) ->
    eq_zero (min_size (m_base ng)) = false
    /\ forall z, min_size (m_base ng) = VInt z -> z <> 0%Z.
Proof.
  intros H name ng Hin. unfold EKS_init in H.
  destruct (post_init_cases self) as [[Hnil Hok] | [Hne Herr]].
  - rewrite Hok in H. simpl in H. injection H as <-.
    assert (Hz : eq_zero (min_size (m_base ng)) = false).
    { destruct (eq_zero (min_size (m_base ng))) eqn:E; [|reflexivity].
      pose proof (managed_min_size_zero self name ng Hin E) as V.
      apply validation_errors_spec in V. rewrite Hnil in V. contradiction. }
    split; [exact Hz|].
    intros z Ez ->. rewrite Ez in Hz. discriminate.
  - rewrite Herr in H. discriminate.
Qed.

(** C5.  A managed nodegroup whose [min_size] is [0] makes validation raise
    with the scale-to-zero message in the list.  Without managed nodegroups
    no scale-to-zero message is ever produced, whatever the [min_size] of the
    unmanaged ones.  And for the same shared fields with [min_size] [0], no
    custom AMI and no access conflict: alone as an unmanaged nodegroup they
    validate, alone as a managed nodegroup they raise exactly the
    scale-to-zero error. *)
Theorem min_size_zero_managed_vs_unmanaged :
  (forall self name ng,
     In (name, ng) (managed_nodegroups self) ->
     min_size (m_base ng) = VInt 0 ->
     exists errors,
       post_init self = Err (ValueError errors)
       /\ In (min_size_msg (managed_error_name name)) errors)
  /\ (forall self error_name,
        managed_nodegroups self = [] ->
        ~ In (min_size_msg error_name) (validation_errors self))
  /\ (forall self name b v_gpu v_imdsv2 v_taints v_ingress,
        managed_nodegroups self = [] ->
        unmanaged_nodegroups self =
          [(name, {| u_base := b; gpu := v_gpu;
                     imdsv2_required := v_imdsv2; taints := v_taints;
                     ingress_ports := v_ingress |})] ->
        min_size b = VInt 0 ->
        truthy (ami_id b) = false ->
        truthy (control_plane_access_cidrs self)
        && truthy (private_api self) = false ->
        post_init self = Ok tt)
  /\ (forall self name b v_spot v_desired,
        managed_nodegroups self =
          [(name, {| m_base := b; spot := v_spot;
                     desired_size := v_desired |})] ->
        unmanaged_nodegroups self = [] ->
        min_size b = VInt 0 ->
        truthy (ami_id b) = false ->
        truthy (control_plane_access_cidrs self)
        && truthy (private_api self) = false ->
        post_init self
        = Err (ValueError [min_size_msg (managed_error_name name)])).
Proof.
  repeat split.
  - intros self name ng Hin Hz.
    assert (V : violation self (min_size_msg (managed_error_name name))).
    { apply (managed_min_size_zero self name ng Hin). now rewrite Hz. }
    apply validation_errors_spec in V.
    destruct (post_init_cases self) as [[Hnil _] | [_ Herr]].
    + rewrite Hnil in V. contradiction.
    + eauto.
  - intros self error_name Hm Hin.
    apply validation_errors_spec in Hin.
    inversion Hin;
      match goal with
      | H : In _ (managed_nodegroups self) |- _ =>
          rewrite Hm in H; contradiction
      | H : _ = min_size_msg _ |- _ => msg_clash H
      end.
  - intros self name b g i t p Hm Hu Hz Ha Hacc.
    unfold post_init. rewrite validation_errors_eq, Hm, Hu, Hacc. simpl.
    unfold check_ami_exceptions. simpl. rewrite Ha. reflexivity.
  - intros self name b s d Hm Hu Hz Ha Hacc.
    unfold post_init. rewrite validation_errors_eq, Hm, Hu, Hacc. simpl.
    unfold check_ami_exceptions. simpl. rewrite Ha, Hz. reflexivity.
Qed.

(** C6.  The mutual-exclusivity message is in the list of errors exactly
    when [control_plane_access_cidrs] and [private_api] are both true
    values: validation then raises with that message, and with a non-empty
    CIDR list but [private_api] false, or [private_api] true but an empty
    CIDR list, the message is not produced. *)
Theorem access_conflict_exactly (self : EKS) :
  (In access_msg (validation_errors self) <->
   truthy (control_plane_access_cidrs self) = true
   /\ truthy (private_api self) = true)
  /\ (truthy (control_plane_access_cidrs self) = true ->
      truthy (private_api self) = true ->
      exists errors,
        post_init self = Err (ValueError errors) /\ In access_msg errors)
  /\ (forall l, control_plane_access_cidrs self = VList l ->
        private_api self = VBool false ->
        ~ In access_msg (validation_errors self))
  /\ (control_plane_access_cidrs self = VList [] ->
      ~ In access_msg (validation_errors self)).
Proof.
  assert (Hiff : In access_msg (validation_errors self) <->
                 truthy (control_plane_access_cidrs self) = true
                 /\ truthy (private_api self) = true).
  { rewrite validation_errors_spec. split.
    - intros V.
      inversion V;
        try match goal with
            | H : _ = access_msg |- _ => msg_clash H
            end.
      split; assumption.
    - intros [Hc Hp]. now constructor. }
  split; [exact Hiff|]. split; [|split].
  - intros Hc Hp.
    assert (Hin : In access_msg (validation_errors self)) by (now apply Hiff).
    destruct (post_init_cases self) as [[Hnil _] | [_ Herr]].
    + rewrite Hnil in Hin. contradiction.
    + eauto.
  - intros l Hc Hp Hin. apply Hiff in Hin. rewrite Hp in Hin.
    simpl in Hin. destruct Hin. discriminate.
  - intros Hc Hin. apply Hiff in Hin. rewrite Hc in Hin.
    simpl in Hin. destruct Hin. discriminate.
Qed.

(** ** Inverting a successful load *)

Ltac pop_step H :=
  repeat rewrite bind_assoc in H;
  first
    [ rewrite bind_pop_rest in H by reflexivity
    | rewrite bind_pop_default_rest in H by reflexivity
    | rewrite bind_pop_start in H
    | rewrite bind_pop_default_start in H
    | rewrite bind_lift in H ];
  cbv beta in H.

(** One required [pop]: name the value or leave with the [KeyError]. *)
Ltac pop_some H G :=
  pop_step H;
  match type of H with
  | context [dict_get ?k ?d] =>
      destruct (dict_get k d) eqn:G; [cbv beta in H | discriminate H]
  end.

Lemma EKS_init_Ok (self e : EKS) :
  EKS_init self = Ok e -> e = self /\ post_init self = Ok tt.
Proof.
  unfold EKS_init. destruct (post_init self) as [[]|err]; simpl.
  - intros [= <-]. auto.
  - discriminate.
Qed.

Lemma from_loader_Ok {A} (name : string) (cfg out : A) (c : dict) :
  from_loader name cfg c = Ok out -> out = cfg /\ c = [].
Proof.
  unfold from_loader. destruct c; [|discriminate].
  intros [= <-]. auto.
Qed.

Section Migrations.

Variable load_rules : string -> value -> result (list IngressRule).

(** What a successful [from_0_0_1] tells about its input and its result. *)
Lemma from_0_0_1_Ok (c : dict) (e : EKS) :
  from_0_0_1 load_rules c = Ok e ->
  dict_get "version" c = Some (version e)
  /\ dict_get "control_plane_access_cidrs" c
     = Some (control_plane_access_cidrs e)
  /\ dict_get "private_api" c = Some (private_api e)
  /\ secrets_encryption_key_arn e
     = get_or "secrets_encryption_key_arn" VNone c
  /\ dict_get "max_nodegroup_azs" c = Some (max_nodegroup_azs e)
  /\ dict_get "global_node_labels" c = Some (global_node_labels e)
  /\ dict_get "global_node_tags" c = Some (global_node_tags e)
  /\ load_items ManagedNodegroup_load
       (get_or "managed_nodegroups" (VDict []) c)
     = Ok (managed_nodegroups e)
  /\ load_items (UnmanagedNodegroup_load load_rules)
       (get_or "unmanaged_nodegroups" (VDict []) c)
     = Ok (unmanaged_nodegroups e)
  /\ post_init e = Ok tt.
Proof.
  unfold from_0_0_1, from_0_0_1_fields. intros H.
  pop_some H G1. pop_some H G2. pop_some H G3. pop_step H.
  pop_some H G4. pop_some H G5. pop_some H G6.
  pop_step H. pop_step H.
  destruct (load_items ManagedNodegroup_load _) as [m|] eqn:Gm;
    [|discriminate H].
  pop_step H. pop_step H.
  destruct (load_items (UnmanagedNodegroup_load load_rules) _) as [u|] eqn:Gu;
    [|discriminate H].
  unfold lift in H.
  match type of H with
  | context [EKS_init ?s] => destruct (EKS_init s) as [x|] eqn:Gi
  end; [|discriminate H].
  apply from_loader_Ok in H. destruct H as [-> _].
  apply EKS_init_Ok in Gi. destruct Gi as [-> Gp].
  simpl. repeat split; auto.
Qed.

Ltac pop_or_missing H k G :=
  pop_step H;
  destruct (dict_get k _) eqn:G;
  [ cbv beta in H
  | exists k; split; [simpl; tauto | split; [exact G | exact H]] ].

(** C10.  In [from_0_0_1] the six keys [version],
    [control_plane_access_cidrs], [private_api], [max_nodegroup_azs],
    [global_node_labels] and [global_node_tags] are required: when one of
    them is absent the load raises a [KeyError] for an absent required key.
    When [secrets_encryption_key_arn] is absent the result has none there,
    and absent [managed_nodegroups] or [unmanaged_nodegroups] give empty
    mappings; a mapping with the six required keys only loads. *)
Theorem from_0_0_1_required_and_defaults :
  (forall c k,
     In k required_0_0_1 -> dict_get k c = None ->
     exists k',
       In k' required_0_0_1 /\ dict_get k' c = None
       /\ from_0_0_1 load_rules c = Err (KeyError k'))
  /\ (forall c e,
        from_0_0_1 load_rules c = Ok e ->
        (dict_get "secrets_encryption_key_arn" c = None ->
         secrets_encryption_key_arn e = VNone)
        /\ (dict_get "managed_nodegroups" c = None ->
            managed_nodegroups e = [])
        /\ (dict_get "unmanaged_nodegroups" c = None ->
            unmanaged_nodegroups e = []))
  /\ (forall v1 v2 v3 v4 v5 v6,
        truthy v2 && truthy v3 = false ->
        from_0_0_1 load_rules
          [("version", v1); ("control_plane_access_cidrs", v2);
           ("private_api", v3); ("max_nodegroup_azs", v4);
           ("global_node_labels", v5); ("global_node_tags", v6)]
        = Ok {| version := v1;
                control_plane_access_cidrs := v2;
                private_api := v3;
                max_nodegroup_azs := v4;
                global_node_labels := v5;
                global_node_tags := v6;
                secrets_encryption_key_arn := VNone;
                managed_nodegroups := [];
                unmanaged_nodegroups := [] |}).
Proof.
  split; [|split].
  - intros c k Hin Hnone.
    remember (from_0_0_1 load_rules c) as r eqn:Hr.
    unfold from_0_0_1, from_0_0_1_fields in Hr.
    pop_or_missing Hr "version" G1.
    pop_or_missing Hr "control_plane_access_cidrs" G2.
    pop_or_missing Hr "private_api" G3.
    pop_step Hr.
    pop_or_missing Hr "max_nodegroup_azs" G4.
    pop_or_missing Hr "global_node_labels" G5.
    pop_or_missing Hr "global_node_tags" G6.
    exfalso. simpl in Hin.
    destruct Hin as [<- | [<- | [<- | [<- | [<- | [<- | []]]]]]]; congruence.
  - intros c e H. apply from_0_0_1_Ok in H.
    destruct H as (_ & _ & _ & Harn & _ & _ & _ & Hm & Hu & _).
    unfold get_or in *. repeat split.
    + intros G. now rewrite G in Harn.
    + intros G. rewrite G in Hm. simpl in Hm. now injection Hm as <-.
    + intros G. rewrite G in Hu. simpl in Hu. now injection Hu as <-.
  - intros v1 v2 v3 v4 v5 v6 Hacc.
    unfold from_0_0_1, from_0_0_1_fields, bind, pop, pop_default, lift.
    simpl. unfold EKS_init, post_init, validation_errors. simpl.
    rewrite Hacc. reflexivity.
Qed.

(** What a loaded nodegroup holds, in terms of the mapping it was loaded
    from. *)
Lemma base_fields_Ok {A} (k : NodegroupBase -> loader A) (d : dict)
    (out : A) (r : dict) :
  bind base_load k d = Ok (out, r) ->
  exists b,
    k b (rest (rev base_keys) d) = Ok (out, r)
    /\ dict_get "ssm_agent" d = Some (ssm_agent b)
    /\ dict_get "min_size" d = Some (min_size b)
    /\ dict_get "max_size" d = Some (max_size b)
    /\ dict_get "labels" d = Some (labels b)
    /\ ami_id b = get_or "ami_id" VNone d
    /\ user_data b = get_or "user_data" VNone d.
Proof.
  unfold base_load. intros H.
  pop_some H G1. pop_some H G2. pop_step H. pop_some H G3. pop_some H G4.
  pop_step H. pop_step H. pop_some H G5. pop_some H G6. pop_some H G7.
  rewrite bind_ret in H.
  eexists. split; [exact H|]. simpl. auto 10.
Qed.


Lemma UnmanagedNodegroup_load_Ok (d : dict) (out : UnmanagedNodegroup) :
  UnmanagedNodegroup_load load_rules (VDict d) = Ok out ->
  dict_get "ssm_agent" d = Some (ssm_agent (u_base out))
  /\ dict_get "min_size" d = Some (min_size (u_base out))
  /\ dict_get "max_size" d = Some (max_size (u_base out))
  /\ dict_get "labels" d = Some (labels (u_base out))
  /\ ami_id (u_base out) = get_or "ami_id" VNone d
  /\ user_data (u_base out) = get_or "user_data" VNone d
  /\ dict_get "gpu" d = Some (gpu out)
  /\ dict_get "imdsv2_required" d = Some (imdsv2_required out)
  /\ taints out = get_or "taints" (VDict []) d.
Proof.
  unfold UnmanagedNodegroup_load, load_with, UnmanagedNodegroup_fields.
  destruct (bind base_load _ d) as [[o r]|] eqn:H; [|discriminate].
  intros Hc.
  assert (o = out) as ->.
  { destruct (check_leavins _ _ r); simpl in Hc; congruence. }
  apply base_fields_Ok in H.
  destruct H as (b & H & F1 & F2 & F3 & F4 & F5 & F6).
  unfold base_keys in H. simpl rev in H.
  pop_some H G1. pop_some H G2. pop_step H. pop_some H G3. pop_step H.
  destruct (load_rules _ _) as [rules|]; [|discriminate H].
  unfold ret in H. injection H as <- _. simpl. auto 12.
Qed.

(** A comprehension that finishes has loaded every entry, name by name. *)
Lemma traverse_Ok {A B} (f : A -> result B) (xs : list A) (ys : list B) :
  traverse f xs = Ok ys -> Forall2 (fun x y => f x = Ok y) xs ys.
Proof.
  revert ys. induction xs as [|x xs IH]; simpl; intros ys H.
  - injection H as <-. constructor.
  - destruct (f x) as [y|] eqn:Ef; simpl in H; [|discriminate].
    destruct (traverse f xs) as [ys'|]; simpl in H; [|discriminate].
    injection H as <-. constructor; auto.
Qed.

Lemma load_items_Ok {A} (f : value -> result A) (v : value)
    (out : list (string * A)) :
  load_items f v = Ok out ->
  exists d,
    v = VDict d
    /\ Forall2 (fun item o => fst o = fst item /\ f (snd item) = Ok (snd o))
         d out.
Proof.
  unfold load_items. destruct v; simpl; try discriminate.
  intros H. exists d. split; [reflexivity|].
  apply traverse_Ok in H.
  induction H as [|[name ng] [name' o] d' out' Hx _ IH]; constructor; auto.
  simpl in *. destruct (f ng); simpl in Hx; [|discriminate].
  injection Hx as -> ->. auto.
Qed.

Lemma load_items_entry {A} (f : value -> result A) (d : dict)
    (out : list (string * A)) (name : string) (ng : value) :
  load_items f (VDict d) = Ok out ->
  In (name, ng) d ->
  exists o, In (name, o) out /\ f ng = Ok o.
Proof.
  intros H Hin. apply load_items_Ok in H.
  destruct H as (d' & [= <-] & F).
  induction F as [|[n x] [n' o] d' out' [Hn Hf] _ IH]; [contradiction|].
  simpl in Hn, Hf. subst n'.
  destruct Hin as [[= -> ->] | Hin].
  - exists o. split; [now left | exact Hf].
  - destruct (IH Hin) as (o' & Ho & Hf'). exists o'. split; [now right | auto].
Qed.

Lemma load_items_result {A} (f : value -> result A) (v : value)
    (out : list (string * A)) (name : string) (o : A) :
  load_items f v = Ok out ->
  In (name, o) out ->
  exists d ng, v = VDict d /\ In (name, ng) d /\ f ng = Ok o.
Proof.
  intros H Hin. apply load_items_Ok in H.
  destruct H as (d & -> & F). exists d.
  induction F as [|[n x] [n' o'] d' out' [Hn Hf] _ IH]; [contradiction|].
  simpl in Hn, Hf. subst n'.
  destruct Hin as [[= -> ->] | Hin].
  - exists x. split; [reflexivity|]. split; [now left | exact Hf].
  - destruct (IH Hin) as (ng & _ & Hi & Hf').
    exists ng. split; [reflexivity|]. split; [now right | exact Hf'].
Qed.

(** C1.  A nodegroup mapping that loads, given one extra key outside the
    keys its loader pops, fails to load with a leftover-key error that names
    exactly that key, for managed and for unmanaged nodegroups alike.  No
    nodegroup mapping that contains a key its loader does not pop ever
    loads, and no configuration with such a nodegroup entry is accepted by
    [from_0_0_1]. *)
Theorem nodegroup_extra_key_rejected :
  (forall l1 l2 k v out,
     ~ In k managed_keys ->
     ManagedNodegroup_load (VDict (l1 ++ l2)) = Ok out ->
     ManagedNodegroup_load (VDict (l1 ++ (k, v) :: l2))
     = Err (ConfigError "config.eks.unmanaged_nodegroups" [k]))
  /\ (forall l1 l2 k v out,
        ~ In k unmanaged_keys ->
        UnmanagedNodegroup_load load_rules (VDict (l1 ++ l2)) = Ok out ->
        UnmanagedNodegroup_load load_rules (VDict (l1 ++ (k, v) :: l2))
        = Err (ConfigError "config.eks.unmanaged_nodegroups" [k]))
  /\ (forall d k out,
        In k (keys d) -> ~ In k managed_keys ->
        ManagedNodegroup_load (VDict d) <> Ok out)
  /\ (forall d k out,
        In k (keys d) -> ~ In k unmanaged_keys ->
        UnmanagedNodegroup_load load_rules (VDict d) <> Ok out)
  /\ (forall c entries name d k e,
        dict_get "managed_nodegroups" c = Some (VDict entries) ->
        In (name, VDict d) entries ->
        In k (keys d) -> ~ In k managed_keys ->
        from_0_0_1 load_rules c <> Ok e)
  /\ (forall c entries name d k e,
        dict_get "unmanaged_nodegroups" c = Some (VDict entries) ->
        In (name, VDict d) entries ->
        In k (keys d) -> ~ In k unmanaged_keys ->
        from_0_0_1 load_rules c <> Ok e).
Proof.
  split; [|split; [|split; [|split; [|split]]]].
  - intros l1 l2 k v out Hk H.
    exact (load_with_extra_key _ _ _ _ l1 l2 k v out
             frames_ManagedNodegroup_fields Hk H).
  - intros l1 l2 k v out Hk H.
    exact (load_with_extra_key _ _ _ _ l1 l2 k v out
             (frames_UnmanagedNodegroup_fields load_rules) Hk H).
  - intros d k out Hin Hk.
    exact (load_with_unknown_key _ _ _ _ d k
             frames_ManagedNodegroup_fields Hin Hk out).
  - intros d k out Hin Hk.
    exact (load_with_unknown_key _ _ _ _ d k
             (frames_UnmanagedNodegroup_fields load_rules) Hin Hk out).
  - intros c entries name d k e Hc Hin Hkin Hk H.
    apply from_0_0_1_Ok in H.
    destruct H as (_ & _ & _ & _ & _ & _ & _ & Hm & _ & _).
    unfold get_or in Hm. rewrite Hc in Hm.
    destruct (load_items_entry _ _ _ name (VDict d) Hm Hin) as (o & _ & Hl).
    exact (load_with_unknown_key _ _ _ _ d k
             frames_ManagedNodegroup_fields Hkin Hk o Hl).
  - intros c entries name d k e Hc Hin Hkin Hk H.
    apply from_0_0_1_Ok in H.
    destruct H as (_ & _ & _ & _ & _ & _ & _ & _ & Hu & _).
    unfold get_or in Hu. rewrite Hc in Hu.
    destruct (load_items_entry _ _ _ name (VDict d) Hu Hin) as (o & _ & Hl).
    exact (load_with_unknown_key _ _ _ _ d k
             (frames_UnmanagedNodegroup_fields load_rules) Hkin Hk o Hl).
Qed.

(** The mapping [remap_mi] hands to the loader: for a key other than
    [machine_image], the value of the nodegroup entry if it has one, else
    the value under [machine_image]. *)
Lemma remap_mi_Ok (ng : value) (unmanaged : bool) (r : value) :
  remap_mi ng unmanaged = Ok r ->
  exists d mi,
    ng = VDict d
    /\ get_or "machine_image" (VDict []) d = VDict mi
    /\ r = VDict
             (dict_merge mi
                (rest ["machine_image"]
                   (if unmanaged
                    then dict_set "ingress_ports" (VDict [])
                           (dict_set "imdsv2_required" (VBool false) d)
                    else d))).
Proof.
  unfold remap_mi. destruct ng as [| | | | |d]; try discriminate.
  set (d1 := if unmanaged
             then dict_set "ingress_ports" (VDict [])
                    (dict_set "imdsv2_required" (VBool false) d)
             else d).
  assert (Hmi : get_or "machine_image" (VDict []) d1
                = get_or "machine_image" (VDict []) d).
  { unfold get_or, d1. destruct unmanaged; [|reflexivity].
    rewrite !dict_get_set_other by discriminate. reflexivity. }
  unfold pop_default, get_or in *.
  destruct (dict_get "machine_image" d1) as [v|] eqn:G.
  - destruct v as [| | | | |mi]; try discriminate.
    intros [= <-]. exists d, mi. rewrite <- Hmi, dict_del_rest. auto.
  - intros [= <-]. exists d, []. rewrite <- Hmi.
    fold d1. rewrite (rest_absent "machine_image" [] d1 G), rest_nil. auto.
Qed.

Lemma dict_get_remapped (k : string) (mi d : dict) :
  k <> "machine_image" ->
  dict_get k (dict_merge mi (rest ["machine_image"] d)) =
  match dict_get k d with
  | Some v => Some v
  | None => dict_get k mi
  end.
Proof.
  intros N. rewrite dict_get_merge, dict_get_rest. simpl.
  apply String.eqb_neq in N. now rewrite N.
Qed.

(** What a successful [from_0_0_0] tells about its input and its result. *)
Lemma from_0_0_0_Ok (c : dict) (e : EKS) :
  from_0_0_0 load_rules c = Ok e ->
  control_plane_access_cidrs e = VList []
  /\ secrets_encryption_key_arn e = VNone
  /\ load_items (fun ng => ng' <-- remap_mi ng false ;;
                           ManagedNodegroup_load ng')
       (get_or "managed_nodegroups" (VDict []) c)
     = Ok (managed_nodegroups e)
  /\ load_items (fun ng => ng' <-- remap_mi ng true ;;
                           UnmanagedNodegroup_load load_rules ng')
       (get_or "nodegroups" (VDict []) c)
     = Ok (unmanaged_nodegroups e)
  /\ post_init e = Ok tt.
Proof.
  unfold from_0_0_0, from_0_0_0_fields. intros H.
  pop_some H G1. pop_some H G2. pop_some H G3. pop_some H G4. pop_some H G5.
  pop_step H. pop_step H.
  match type of H with
  | context [load_items ?f ?v] =>
      destruct (load_items f v) as [m|] eqn:Gm; [|discriminate H]
  end.
  pop_step H. pop_step H.
  match type of H with
  | context [load_items ?f ?v] =>
      destruct (load_items f v) as [u|] eqn:Gu; [|discriminate H]
  end.
  unfold lift in H.
  match type of H with
  | context [EKS_init ?s] => destruct (EKS_init s) as [x|] eqn:Gi
  end; [|discriminate H].
  apply from_loader_Ok in H. destruct H as [-> _].
  apply EKS_init_Ok in Gi. destruct Gi as [-> Gp].
  simpl. auto.
Qed.

Lemma remapped_get (ng : dict) (unmanaged : bool) (r mi : dict) (k : string) :
  remap_mi (VDict ng) unmanaged = Ok (VDict r) ->
  dict_get "machine_image" ng = Some (VDict mi) ->
  k <> "machine_image" -> k <> "imdsv2_required" -> k <> "ingress_ports" ->
  dict_get k r =
  match dict_get k ng with
  | Some v => Some v
  | None => dict_get k mi
  end.
Proof.
  intros H Hmi N1 N2 N3. apply remap_mi_Ok in H.
  destruct H as (d & mi' & [= <-] & Hg & [= ->]).
  unfold get_or in Hg. rewrite Hmi in Hg. injection Hg as <-.
  rewrite dict_get_remapped by exact N1.
  destruct unmanaged; [|reflexivity].
  rewrite !dict_get_set_other by assumption. reflexivity.
Qed.



(** *** Entry objects: what a write under one name leaves for the others *)











(** C7.  Whatever the input, an [EKS] object that [from_0_0_0] returns has
    an empty [control_plane_access_cidrs] list, no
    [secrets_encryption_key_arn], and [imdsv2_required] false on every
    unmanaged nodegroup. *)
Theorem from_0_0_0_forced_defaults (c : dict) (e : EKS) :
  from_0_0_0 load_rules c = Ok e ->
  control_plane_access_cidrs e = VList []
  /\ secrets_encryption_key_arn e = VNone
  /\ forall name ng,
       In (name, ng) (unmanaged_nodegroups e) ->
       imdsv2_required ng = VBool false.
Proof.
  intros H. apply from_0_0_0_Ok in H.
  destruct H as (Hc & Ha & _ & Hu & _).
  split; [exact Hc|]. split; [exact Ha|].
  intros name ng Hin.
  destruct (load_items_result _ _ _ name ng Hu Hin) as (d & raw & _ & _ & Hl).
  destruct (remap_mi raw true) as [r|] eqn:Hr; simpl in Hl; [|discriminate].
  apply remap_mi_Ok in Hr.
  destruct Hr as (d0 & mi & -> & _ & ->).
  apply UnmanagedNodegroup_load_Ok in Hl.
  destruct Hl as (_ & _ & _ & _ & _ & _ & _ & Hi & _).
  rewrite dict_get_remapped in Hi by discriminate.
  rewrite dict_get_set_other in Hi by discriminate.
  rewrite dict_get_set_same in Hi.
  now injection Hi as <-.
Qed.

(** C8.  The scenario's mapping loads as a managed nodegroup, and an [EKS]
    object holding just that nodegroup, with no access conflict, fails
    validation with exactly two errors, in this order: user data missing
    for a custom AMI, and ssm_agent/labels incompatible with a custom AMI.
    The scale-to-zero error is not among them.  Loading a whole
    configuration around the nodegroup raises the same two errors. *)
Theorem custom_ami_scenario :
  exists ng,
    ManagedNodegroup_load (VDict custom_ami_nodegroup) = Ok ng
    /\ (forall self name,
          managed_nodegroups self = [(name, ng)] ->
          unmanaged_nodegroups self = [] ->
          truthy (control_plane_access_cidrs self)
          && truthy (private_api self) = false ->
          post_init self
          = Err (ValueError
                   [user_data_msg (managed_error_name name);
                    incompatible_msg (managed_error_name name)])
          /\ ~ In (min_size_msg (managed_error_name name))
                 (validation_errors self))
    /\ from_0_0_1 load_rules
         (config_with_managed "workers" custom_ami_nodegroup)
       = Err (ValueError
                [user_data_msg (managed_error_name "workers");
                 incompatible_msg (managed_error_name "workers")]).
Proof.
  eexists. split; [vm_compute; reflexivity|]. split.
  - intros self name Hm Hu Hacc.
    assert (E : validation_errors self =
                [user_data_msg (managed_error_name name);
                 incompatible_msg (managed_error_name name)]).
    { rewrite validation_errors_eq, Hm, Hu, Hacc. reflexivity. }
    unfold post_init. rewrite E. split; [reflexivity|].
    intros [H | [H | []]]; msg_clash H.
  - vm_compute. reflexivity.
Qed.

(** C9.  Validation relates none of the size fields to one another: there
    is an input whose managed nodegroup has positive sizes with [min_size]
    above [max_size] and [desired_size] outside the range from [min_size] to
    [max_size], and it loads and validates without error. *)
Theorem sizes_not_cross_checked :
  exists e ng mn mx ds,
    from_0_0_1 load_rules
      (config_with_managed "workers" unordered_sizes_nodegroup) = Ok e
    /\ post_init e = Ok tt
    /\ In ("workers", ng) (managed_nodegroups e)
    /\ min_size (m_base ng) = VInt mn
    /\ max_size (m_base ng) = VInt mx
    /\ desired_size ng = VInt ds
    /\ (0 < mx < mn)%Z /\ (0 < ds)%Z /\ ~ (mn <= ds <= mx)%Z.
Proof.
  eexists. eexists. exists 5%Z, 2%Z, 9%Z.
  split; [vm_compute; reflexivity|].
  split; [vm_compute; reflexivity|].
  split; [left; reflexivity|].
  simpl. repeat split; try reflexivity; lia.
Qed.

End Migrations.

(** ** Instances *)

Lemma nodegroup_extra_key_rejected_witness :
  ManagedNodegroup_load (VDict (plain_nodegroup_raw 1 ++ [("spto", VBool true)]))
  = Err (ConfigError "config.eks.unmanaged_nodegroups" ["spto"]).
Proof.
  refine (proj1 (nodegroup_extra_key_rejected no_rules)
            (plain_nodegroup_raw 1) [] "spto" (VBool true)
            (plain_nodegroup 1) _ _).
  - simpl. intros H.
    repeat (destruct H as [H | H]; [discriminate H|]). exact H.
  - reflexivity.
Defined.

(** With [min_size] [-1] a managed nodegroup loads and validates. *)
Lemma negative_min_size_accepted :
  from_0_0_1 no_rules (config_with_managed "workers" (plain_nodegroup_raw (-1)))
  = Ok (eks_with_managed "workers" (plain_nodegroup (-1)))
  /\ EKS_init (eks_with_managed "workers" (plain_nodegroup (-1)))
     = Ok (eks_with_managed "workers" (plain_nodegroup (-1)))
  /\ In ("workers", plain_nodegroup (-1))
       (managed_nodegroups (eks_with_managed "workers" (plain_nodegroup (-1))))
  /\ min_size (m_base (plain_nodegroup (-1))) = VInt (-1)
  /\ (-1 <= 0)%Z.
Proof.
  split; [reflexivity|]. split; [reflexivity|].
  split; [left; reflexivity|]. split; [reflexivity | lia].
Qed.

Lemma constructed_managed_min_size_nonzero_witness :
  EKS_init (eks_with_managed "workers" (plain_nodegroup (-1)))
  = Ok (eks_with_managed "workers" (plain_nodegroup (-1)))
  /\ eq_zero (min_size (m_base (plain_nodegroup (-1)))) = false.
Proof.
  split; [reflexivity|].
  refine (proj1 (constructed_managed_min_size_nonzero
                   (eks_with_managed "workers" (plain_nodegroup (-1)))
                   (eks_with_managed "workers" (plain_nodegroup (-1)))
                   _ "workers" (plain_nodegroup (-1)) _)).
  - reflexivity.
  - left. reflexivity.
Defined.



Lemma from_0_0_0_forced_defaults_witness :
  exists e ng,
    from_0_0_0 no_rules (legacy_config legacy_managed legacy_unmanaged) = Ok e
    /\ dict_get "imdsv2_required" legacy_unmanaged = Some (VBool true)
    /\ In ("platform", ng) (unmanaged_nodegroups e)
    /\ control_plane_access_cidrs e = VList []
    /\ secrets_encryption_key_arn e = VNone
    /\ imdsv2_required ng = VBool false.
Proof.
  eexists. eexists.
  split; [vm_compute; reflexivity|].
  split; [reflexivity|].
  split; [left; reflexivity|].
  match goal with
  | |- control_plane_access_cidrs ?e = _ /\ _ =>
      destruct (from_0_0_0_forced_defaults no_rules
                  (legacy_config legacy_managed legacy_unmanaged) e eq_refl)
        as (Hc & Ha & Hi)
  end.
  split; [exact Hc|]. split; [exact Ha|].
  apply (Hi "platform"). left. reflexivity.
Defined.

(** * Further properties of the loaders and of validation *)

(** ** Nodegroup loaders, in closed form *)

Lemma rest_ext (ks ks' : list string) (d : dict) :
  (forall k, In k ks <-> In k ks') -> rest ks d = rest ks' d.
Proof.
  intros H. unfold rest. apply filter_ext. intros [k v]. simpl. f_equal.
  destruct (existsb (String.eqb k) ks) eqn:E;
    destruct (existsb (String.eqb k) ks') eqn:E'; try reflexivity.
  - apply existsb_eqb_In in E. apply H in E. apply existsb_eqb_In in E.
    congruence.
  - apply existsb_eqb_In in E'. apply H in E'. apply existsb_eqb_In in E'.
    congruence.
Qed.

Lemma rest_rev (ks : list string) (d : dict) : rest (rev ks) d = rest ks d.
Proof. apply rest_ext. intros k. symmetry. apply in_rev. Qed.

Lemma get_or_Some (k : string) (dflt v : value) (d : dict) :
  dict_get k d = Some v -> get_or k dflt d = v.
Proof. unfold get_or. now intros ->. Qed.

(** One required [pop] of a closed form: the key is there, or both sides
    are the [KeyError]. *)
Ltac pop_closed H G :=
  pop_step H;
  match type of H with
  | context [dict_get ?k ?d] => destruct (dict_get k d) eqn:G
  end;
  [ cbv beta in H; cbv beta iota | exact H ].

(** [base_load] raises for the first required key that is absent and
    otherwise reads every field off the mapping. *)
Lemma base_load_closed {A} (k : NodegroupBase -> loader A) (d : dict) :
  bind base_load k d =
  match first_missing base_required d with
  | Some missing => Err (KeyError missing)
  | None => k (base_of d) (rest (rev base_keys) d)
  end.
Proof.
  remember (bind base_load k d) as r eqn:H.
  unfold base_load in H.
  unfold base_required, first_missing, dict_mem.
  pop_closed H G1. pop_closed H G2. pop_step H.
  pop_closed H G3. pop_closed H G4. pop_step H. pop_step H.
  pop_closed H G5. pop_closed H G6. pop_closed H G7.
  rewrite bind_ret in H. rewrite H. unfold base_of.
  rewrite (get_or_Some _ _ _ _ G1), (get_or_Some _ _ _ _ G2),
    (get_or_Some _ _ _ _ G3), (get_or_Some _ _ _ _ G4),
    (get_or_Some _ _ _ _ G5), (get_or_Some _ _ _ _ G6),
    (get_or_Some _ _ _ _ G7).
  reflexivity.
Qed.

Lemma first_missing_app (ks ks' : list string) (d : dict) :
  first_missing (ks ++ ks') d =
  match first_missing ks d with
  | Some k => Some k
  | None => first_missing ks' d
  end.
Proof.
  induction ks as [|k ks IH]; simpl; [reflexivity|].
  now destruct (dict_mem k d).
Qed.

Lemma first_missing_Some (ks : list string) (d : dict) (k : string) :
  first_missing ks d = Some k <->
  exists before after,
    ks = before ++ k :: after /\ dict_get k d = None
    /\ forall k', In k' before -> dict_get k' d <> None.
Proof.
  induction ks as [|k0 ks IH]; simpl.
  - split; [discriminate|]. intros (b & a & E & _). now destruct b.
  - unfold dict_mem. destruct (dict_get k0 d) as [v|] eqn:G.
    + rewrite IH. split.
      * intros (b & a & -> & Hk & Hb). exists (k0 :: b), a.
        repeat split; auto. intros k' [<- | Hin]; [congruence | auto].
      * intros (b & a & E & Hk & Hb). destruct b as [|k1 b].
        -- simpl in E. injection E as -> ->. congruence.
        -- simpl in E. injection E as -> ->. exists b, a.
           repeat split; auto. intros k' Hin. apply Hb. now right.
    + split.
      * intros [= <-]. exists [], ks. repeat split; auto; intros k' [].
      * intros (b & a & E & Hk & Hb). destruct b as [|k1 b].
        -- simpl in E. now injection E as ->.
        -- simpl in E. injection E as E1 E2. subst.
           exfalso. apply (Hb _ (or_introl eq_refl)). exact G.
Qed.

Lemma first_missing_None (ks : list string) (d : dict) :
  first_missing ks d = None <-> forall k, In k ks -> dict_get k d <> None.
Proof.
  induction ks as [|k0 ks IH]; simpl.
  - split; [intros _ k [] | reflexivity].
  - unfold dict_mem. destruct (dict_get k0 d) as [v|] eqn:G.
    + rewrite IH. split.
      * intros H k [<- | Hin]; [congruence | auto].
      * intros H k Hin. apply H. now right.
    + split; [discriminate|]. intros H. exfalso. apply (H k0); auto.
Qed.

(** [ManagedNodegroup.load] on a mapping, in closed form. *)
Lemma ManagedNodegroup_load_closed (d : dict) :
  ManagedNodegroup_load (VDict d) =
  match first_missing managed_required d with
  | Some missing => Err (KeyError missing)
  | None =>
      match rest managed_keys d with
      | [] => Ok (managed_of d)
      | left_over =>
          Err (ConfigError "config.eks.unmanaged_nodegroups" (keys left_over))
      end
  end.
Proof.
  unfold ManagedNodegroup_load, load_with, ManagedNodegroup_fields.
  rewrite base_load_closed. unfold managed_required.
  rewrite first_missing_app.
  destruct (first_missing base_required d) as [m|]; [reflexivity|].
  remember (bind (pop "spot") _ (rest (rev base_keys) d)) as r eqn:H.
  unfold base_keys in H. simpl rev in H.
  unfold first_missing, dict_mem.
  pop_step H. destruct (dict_get "spot" d) eqn:G1; [|now rewrite H].
  cbv beta in H.
  pop_step H. destruct (dict_get "desired_size" d) eqn:G2; [|now rewrite H].
  cbv beta in H. unfold ret in H. rewrite H.
  assert (E : rest ["desired_size"; "spot"; "tags"; "labels";
                    "instance_types"; "user_data"; "ami_id"; "max_size";
                    "min_size"; "key_name"; "disk_size"; "ssm_agent"] d
              = rest managed_keys d).
  { apply rest_ext. intros k. unfold managed_keys, base_keys. simpl. tauto. }
  rewrite E. unfold check_leavins, managed_of.
  rewrite (get_or_Some _ _ _ _ G1), (get_or_Some _ _ _ _ G2).
  destruct (rest managed_keys d); reflexivity.
Qed.

Lemma rest_nil_iff (ks : list string) (d : dict) :
  rest ks d = [] <-> forall k, In k (keys d) -> In k ks.
Proof.
  split.
  - intros E k Hin.
    destruct (existsb (String.eqb k) ks) eqn:Ek.
    + now apply existsb_eqb_In.
    + exfalso. apply (rest_keeps ks k d Hin); [|exact E].
      intros H. apply existsb_eqb_In in H. congruence.
  - intros H. unfold rest.
    induction d as [|[k v] d IH]; simpl; [reflexivity|].
    assert (Hk : existsb (String.eqb k) ks = true).
    { apply existsb_eqb_In. apply H. now left. }
    rewrite Hk. simpl. apply IH. intros k' Hin. apply H. now right.
Qed.

(** X1.  [ManagedNodegroup.load] returns an object only for a mapping that
    has the nine required keys, and the object then holds the mapping's
    value for every field, [None] standing for an absent [key_name],
    [ami_id] or [user_data]; a mapping with the required keys and no key
    outside the twelve known ones does load. *)
Theorem managed_load_round_trip (d : dict) :
  (forall out,
     ManagedNodegroup_load (VDict d) = Ok out ->
     out = managed_of d
     /\ forall k, In k managed_required -> dict_get k d <> None)
  /\ ((forall k, In k managed_required -> dict_get k d <> None) ->
      (forall k, In k (keys d) -> In k managed_keys) ->
      ManagedNodegroup_load (VDict d) = Ok (managed_of d)).
Proof.
  rewrite ManagedNodegroup_load_closed. split.
  - intros out H.
    destruct (first_missing managed_required d) eqn:F; [discriminate|].
    destruct (rest managed_keys d); [|discriminate].
    injection H as <-. split; [reflexivity|].
    now apply first_missing_None.
  - intros Hreq Hkeys.
    apply first_missing_None in Hreq. rewrite Hreq.
    apply rest_nil_iff in Hkeys. now rewrite Hkeys.
Qed.

(** X2.  [ManagedNodegroup.load] raises [KeyError] for a key exactly when
    that key is the first, in the order the loader pops, of the required
    keys the mapping lacks; unknown keys in the mapping do not change
    this. *)
Theorem managed_load_key_error (d : dict) (k : string) :
  ManagedNodegroup_load (VDict d) = Err (KeyError k) <->
  first_missing managed_required d = Some k.
Proof.
  rewrite ManagedNodegroup_load_closed.
  destruct (first_missing managed_required d) as [m|].
  - split; intros [= ->]; reflexivity.
  - destruct (rest managed_keys d); split; discriminate.
Qed.

Section UnmanagedClosedForm.

Variable load_rules : string -> value -> result (list IngressRule).

(** [UnmanagedNodegroup.load] on a mapping, in closed form. *)
Lemma UnmanagedNodegroup_load_closed (d : dict) :
  UnmanagedNodegroup_load load_rules (VDict d) =
  match first_missing unmanaged_required d with
  | Some missing => Err (KeyError missing)
  | None =>
      match load_rules "config.eks.unmanaged_nodegroups"
              (get_or "ingress_ports" VNone d) with
      | Err e => Err e
      | Ok rules =>
          match rest unmanaged_keys d with
          | [] =>
              Ok {| u_base := base_of d;
                    gpu := get_or "gpu" VNone d;
                    imdsv2_required := get_or "imdsv2_required" VNone d;
                    taints := get_or "taints" (VDict []) d;
                    ingress_ports := rules |}
          | left_over =>
              Err (ConfigError "config.eks.unmanaged_nodegroups"
                     (keys left_over))
          end
      end
  end.
Proof.
  unfold UnmanagedNodegroup_load, load_with, UnmanagedNodegroup_fields.
  rewrite base_load_closed. unfold unmanaged_required.
  rewrite first_missing_app.
  destruct (first_missing base_required d) as [m|]; [reflexivity|].
  remember (bind (pop "gpu") _ (rest (rev base_keys) d)) as r eqn:H.
  unfold base_keys in H. simpl rev in H.
  unfold first_missing, dict_mem.
  pop_step H. destruct (dict_get "gpu" d) eqn:G1; [|now rewrite H].
  cbv beta in H.
  pop_step H.
  destruct (dict_get "imdsv2_required" d) eqn:G2; [|now rewrite H].
  cbv beta in H. pop_step H.
  pop_step H. destruct (dict_get "ingress_ports" d) eqn:G3; [|now rewrite H].
  cbv beta in H. pop_step H.
  rewrite (get_or_Some _ _ _ _ G3).
  destruct (load_rules "config.eks.unmanaged_nodegroups" v1) as [rules|e];
    [|now rewrite H].
  cbv beta in H. unfold ret in H. rewrite H.
  assert (E : rest ["ingress_ports"; "taints"; "imdsv2_required"; "gpu";
                    "tags"; "labels"; "instance_types"; "user_data";
                    "ami_id"; "max_size"; "min_size"; "key_name";
                    "disk_size"; "ssm_agent"] d
              = rest unmanaged_keys d).
  { apply rest_ext. intros k. unfold unmanaged_keys, base_keys. simpl. tauto. }
  rewrite E. unfold check_leavins.
  rewrite (get_or_Some _ _ _ _ G1), (get_or_Some _ _ _ _ G2).
  destruct (rest unmanaged_keys d); reflexivity.
Qed.

(** X3.  When [UnmanagedNodegroup.load] returns an object, the mapping has
    its ten required keys, among them [imdsv2_required] and
    [ingress_ports]; the object holds the mapping's values, an absent
    [taints] reads as the empty mapping, and [ingress_ports] is what
    [IngressRule.load_rules] made of the raw value. *)
Theorem unmanaged_load_round_trip (d : dict) (out : UnmanagedNodegroup) :
  UnmanagedNodegroup_load load_rules (VDict d) = Ok out ->
  (forall k, In k unmanaged_required -> dict_get k d <> None)
  /\ u_base out = base_of d
  /\ gpu out = get_or "gpu" VNone d
  /\ imdsv2_required out = get_or "imdsv2_required" VNone d
  /\ taints out = get_or "taints" (VDict []) d
  /\ load_rules "config.eks.unmanaged_nodegroups"
       (get_or "ingress_ports" VNone d) = Ok (ingress_ports out).
Proof.
  rewrite UnmanagedNodegroup_load_closed.
  destruct (first_missing unmanaged_required d) eqn:F; [discriminate|].
  destruct (load_rules _ _) as [rules|]; [|discriminate].
  destruct (rest unmanaged_keys d); [|discriminate].
  intros [= <-].
  split; [exact (proj1 (first_missing_None _ _) F) | simpl; auto 10].
Qed.

(** X4.  The order of failure in [UnmanagedNodegroup.load]: a required key
    that is absent raises [KeyError] for the first such key before
    [IngressRule.load_rules] is consulted, and with all required keys
    present an exception of [IngressRule.load_rules] is what the loader
    raises, whatever other keys the mapping has. *)
Theorem unmanaged_load_failure_order (d : dict) :
  (forall k,
     first_missing unmanaged_required d = Some k ->
     UnmanagedNodegroup_load load_rules (VDict d) = Err (KeyError k))
  /\ (forall e,
        first_missing unmanaged_required d = None ->
        load_rules "config.eks.unmanaged_nodegroups"
          (get_or "ingress_ports" VNone d) = Err e ->
        UnmanagedNodegroup_load load_rules (VDict d) = Err e).
Proof.
  rewrite UnmanagedNodegroup_load_closed. split.
  - intros k ->. reflexivity.
  - intros e -> ->. reflexivity.
Qed.

End UnmanagedClosedForm.

(** ** What validation reads, and what its messages tell *)

Lemma flat_map_Forall2 {A B} (f g : A -> list B) (l l' : list A)
    (R : A -> A -> Prop) :
  (forall x y, R x y -> f x = g y) ->
  Forall2 R l l' -> flat_map f l = flat_map g l'.
Proof.
  intros Hfg F. induction F as [|x y l l' Hxy _ IH]; simpl; [reflexivity|].
  now rewrite (Hfg x y Hxy), IH.
Qed.

Lemma check_ami_exceptions_truthy (ng_name : string) (a u i a' u' i' : value)
    (errors : list string) :
  truthy a = truthy a' -> truthy u = truthy u' -> truthy i = truthy i' ->
  check_ami_exceptions ng_name a u i errors
  = check_ami_exceptions ng_name a' u' i' errors.
Proof. unfold check_ami_exceptions. now intros -> -> ->. Qed.

(** X5.  Validation reads the nodegroup names, the truth values of
    [ami_id], [user_data], [ssm_agent], [labels] and [taints], whether a
    managed [min_size] equals [0], and the truth values of
    [control_plane_access_cidrs] and [private_api], and nothing else: two
    [EKS] objects that agree on these yield the same list of errors and the
    same outcome of [__post_init__]. *)
Theorem validation_reads_only_checked_fields (self self' : EKS) :
  Forall2 same_checked_managed
    (managed_nodegroups self) (managed_nodegroups self') ->
  Forall2 same_checked_unmanaged
    (unmanaged_nodegroups self) (unmanaged_nodegroups self') ->
  truthy (control_plane_access_cidrs self)
  = truthy (control_plane_access_cidrs self') ->
  truthy (private_api self) = truthy (private_api self') ->
  validation_errors self = validation_errors self'
  /\ post_init self = post_init self'.
Proof.
  intros Hm Hu Hc Hp.
  assert (E : validation_errors self = validation_errors self').
  { rewrite !validation_errors_eq, Hc, Hp. f_equal; [|f_equal].
    - apply (flat_map_Forall2 _ _ _ _ same_checked_managed); [|exact Hm].
      intros [n x] [n' y] (Hn & (Ha & Hud & Hs & Hl) & Hz). simpl in *.
      subst n'. unfold check_managed. rewrite Hz.
      rewrite (check_ami_exceptions_truthy _ _ _ _
                 (ami_id (m_base y)) (user_data (m_base y))
                 (py_or (ssm_agent (m_base y)) (labels (m_base y))));
        auto.
      now rewrite !truthy_py_or, Hs, Hl.
    - apply (flat_map_Forall2 _ _ _ _ same_checked_unmanaged); [|exact Hu].
      intros [n x] [n' y] (Hn & (Ha & Hud & Hs & Hl) & Ht). simpl in *.
      subst n'. unfold check_unmanaged.
      apply check_ami_exceptions_truthy; auto.
      now rewrite !truthy_py_or, Hs, Hl, Ht. }
  split; [exact E|]. unfold post_init. now rewrite E.
Qed.

Lemma string_length_append (s t : string) :
  String.length (s ++ t)%string = String.length s + String.length t.
Proof. induction s as [|c s IH]; simpl; congruence. Qed.

Lemma append_inj_l (s s' t : string) :
  (s ++ t)%string = (s' ++ t)%string -> s = s'.
Proof.
  intros H.
  assert (L : String.length s = String.length s').
  { apply (f_equal String.length) in H.
    rewrite !string_length_append in H. lia. }
  revert s' H L.
  induction s as [|c s IH]; intros [|c' s'] H L; simpl in *;
    try discriminate; [reflexivity|].
  injection H as -> H. injection L as L. f_equal. auto.
Qed.

Lemma last_char_append (s : string) (c : ascii) (t : string) :
  last_char (s ++ String c t) = last_char (String c t).
Proof.
  induction s as [|a s IH]; [reflexivity|].
  change (last_char (String a (s ++ String c t)) = last_char (String c t)).
  rewrite <- IH. simpl.
  destruct (s ++ String c t)%string eqn:E; [|reflexivity].
  destruct s; discriminate.
Qed.

Lemma user_data_msg_inj (a b : string) :
  user_data_msg a = user_data_msg b -> a = b.
Proof. apply append_inj_l. Qed.

Lemma incompatible_msg_inj (a b : string) :
  incompatible_msg a = incompatible_msg b -> a = b.
Proof. apply append_inj_l. Qed.

Lemma min_size_msg_inj (a b : string) :
  min_size_msg a = min_size_msg b -> a = b.
Proof.
  unfold min_size_msg. simpl. intros H. injection H as H.
  now apply append_inj_l in H.
Qed.

Lemma managed_error_name_inj (a b : string) :
  managed_error_name a = managed_error_name b -> a = b.
Proof.
  unfold managed_error_name. simpl. intros H. injection H as H.
  now apply append_inj_l in H.
Qed.

Lemma unmanaged_error_name_inj (a b : string) :
  unmanaged_error_name a = unmanaged_error_name b -> a = b.
Proof.
  unfold unmanaged_error_name. simpl. intros H. injection H as H.
  now apply append_inj_l in H.
Qed.

Lemma user_data_msg_not_incompatible (a b : string) :
  user_data_msg a <> incompatible_msg b.
Proof.
  unfold user_data_msg, incompatible_msg. intros H.
  apply (f_equal last_char) in H. simpl in H.
  rewrite !last_char_append in H. vm_compute in H. discriminate.
Qed.

(** One case of a message equation: the two kinds of message differ, or
    they agree and so do the names. *)
Ltac same_message E :=
  first
    [ exfalso; msg_clash E
    | exfalso; exact (user_data_msg_not_incompatible _ _ E)
    | exfalso; symmetry in E; exact (user_data_msg_not_incompatible _ _ E)
    | apply user_data_msg_inj in E; apply managed_error_name_inj in E
    | apply user_data_msg_inj in E; apply unmanaged_error_name_inj in E
    | apply incompatible_msg_inj in E; apply managed_error_name_inj in E
    | apply incompatible_msg_inj in E; apply unmanaged_error_name_inj in E
    | apply min_size_msg_inj in E; apply managed_error_name_inj in E ].

Ltac attribute_message :=
  let V := fresh "V" in
  let E := fresh "E" in
  let msg := fresh "msg" in
  rewrite validation_errors_spec; split;
  [ intros V;
    match type of V with
    | violation _ ?m => remember m as msg eqn:E
    end;
    destruct V; same_message E; subst; eauto
  | intros (ng & Hin & H); eauto using violation ].

(** X6.  Each message in the list of errors tells which rule was broken and
    by which nodegroup: the user-data message for the managed nodegroup
    [name] is in the list exactly when a managed nodegroup of that name has
    a custom AMI and no user data, and likewise for the incompatible-options
    and scale-to-zero messages and for the unmanaged nodegroups, whose
    incompatible options include [taints].  No nodegroup is blamed for what
    another one, or one of the other kind, does. *)
Theorem errors_name_their_nodegroup (self : EKS) (name : string) :
  (In (user_data_msg (managed_error_name name)) (validation_errors self) <->
   exists ng,
     In (name, ng) (managed_nodegroups self)
     /\ truthy (ami_id (m_base ng)) = true
        /\ truthy (user_data (m_base ng)) = false)
  /\ (In (incompatible_msg (managed_error_name name))
        (validation_errors self) <->
      exists ng,
        In (name, ng) (managed_nodegroups self)
        /\ truthy (ami_id (m_base ng)) = true
           /\ (truthy (ssm_agent (m_base ng)) = true
               \/ truthy (labels (m_base ng)) = true))
  /\ (In (min_size_msg (managed_error_name name)) (validation_errors self) <->
      exists ng,
        In (name, ng) (managed_nodegroups self)
        /\ eq_zero (min_size (m_base ng)) = true)
  /\ (In (user_data_msg (unmanaged_error_name name))
        (validation_errors self) <->
      exists ng,
        In (name, ng) (unmanaged_nodegroups self)
        /\ truthy (ami_id (u_base ng)) = true
           /\ truthy (user_data (u_base ng)) = false)
  /\ (In (incompatible_msg (unmanaged_error_name name))
        (validation_errors self) <->
      exists ng,
        In (name, ng) (unmanaged_nodegroups self)
        /\ truthy (ami_id (u_base ng)) = true
           /\ (truthy (ssm_agent (u_base ng)) = true
               \/ truthy (labels (u_base ng)) = true
               \/ truthy (taints ng) = true)).
Proof.
  split; [|split; [|split; [|split]]].
  - attribute_message. destruct H. eauto using violation.
  - attribute_message. destruct H. eauto using violation.
  - attribute_message.
  - attribute_message. destruct H. eauto using violation.
  - attribute_message. destruct H. eauto using violation.
Qed.

(** ** Whole configurations *)

Lemma post_init_Ok_no_violation (self : EKS) (msg : string) :
  post_init self = Ok tt -> ~ violation self msg.
Proof.
  intros H V. apply validation_errors_spec in V.
  destruct (post_init_cases self) as [[Hnil _] | [_ Herr]].
  - now rewrite Hnil in V.
  - congruence.
Qed.

Lemma truthy_false_of_not_true (v : value) :
  truthy v <> true -> truthy v = false.
Proof. now destruct (truthy v). Qed.

(** What validation guarantees of an object it lets through. *)
Lemma post_init_Ok_custom_ami (self : EKS) :
  post_init self = Ok tt ->
  (forall name ng,
     In (name, ng) (managed_nodegroups self) ->
     truthy (ami_id (m_base ng)) = true ->
     truthy (user_data (m_base ng)) = true
     /\ truthy (ssm_agent (m_base ng)) = false
     /\ truthy (labels (m_base ng)) = false)
  /\ (forall name ng,
        In (name, ng) (unmanaged_nodegroups self) ->
        truthy (ami_id (u_base ng)) = true ->
        truthy (user_data (u_base ng)) = true
        /\ truthy (ssm_agent (u_base ng)) = false
        /\ truthy (labels (u_base ng)) = false
        /\ truthy (taints ng) = false)
  /\ (truthy (control_plane_access_cidrs self) = true ->
      truthy (private_api self) = false).
Proof.
  intros H.
  pose proof (fun msg => post_init_Ok_no_violation self msg H) as N.
  split; [|split].
  - intros name ng Hin Ha. repeat split.
    + destruct (truthy (user_data (m_base ng))) eqn:E; [reflexivity|].
      exfalso. exact (N _ (managed_without_user_data self name ng Hin Ha E)).
    + apply truthy_false_of_not_true. intros E.
      exact (N _ (managed_incompatible self name ng Hin Ha (or_introl E))).
    + apply truthy_false_of_not_true. intros E.
      exact (N _ (managed_incompatible self name ng Hin Ha (or_intror E))).
  - intros name ng Hin Ha. repeat split.
    + destruct (truthy (user_data (u_base ng))) eqn:E; [reflexivity|].
      exfalso.
      exact (N _ (unmanaged_without_user_data self name ng Hin Ha E)).
    + apply truthy_false_of_not_true. intros E.
      exact (N _ (unmanaged_incompatible self name ng Hin Ha (or_introl E))).
    + apply truthy_false_of_not_true. intros E.
      exact (N _ (unmanaged_incompatible self name ng Hin Ha
                    (or_intror (or_introl E)))).
    + apply truthy_false_of_not_true. intros E.
      exact (N _ (unmanaged_incompatible self name ng Hin Ha
                    (or_intror (or_intror E)))).
  - intros Hc. apply truthy_false_of_not_true. intros Hp.
    exact (N _ (access_conflict self Hc Hp)).
Qed.

Section Configurations.

Variable load_rules : string -> value -> result (list IngressRule).

(** [from_0_0_1], in closed form: the required keys, the two
    comprehensions, the constructor, the leftover check. *)
Lemma from_0_0_1_closed (c : dict) :
  from_0_0_1 load_rules c =
  match first_missing required_0_0_1 c with
  | Some missing => Err (KeyError missing)
  | None =>
      managed <-- load_items ManagedNodegroup_load
                    (get_or "managed_nodegroups" (VDict []) c) ;;
      unmanaged <-- load_items (UnmanagedNodegroup_load load_rules)
                      (get_or "unmanaged_nodegroups" (VDict []) c) ;;
      cfg <-- EKS_init (fields_0_0_1 c managed unmanaged) ;;
      from_loader "config.eks" cfg (rest top_keys_0_0_1 c)
  end.
Proof.
  remember (from_0_0_1 load_rules c) as r eqn:H.
  unfold from_0_0_1, from_0_0_1_fields in H.
  unfold required_0_0_1, first_missing, dict_mem.
  pop_closed H G1. pop_closed H G2. pop_closed H G3. pop_step H.
  pop_closed H G4. pop_closed H G5. pop_closed H G6.
  pop_step H. pop_step H.
  destruct (load_items ManagedNodegroup_load _) as [m|e]; [|exact H].
  pop_step H. pop_step H.
  destruct (load_items (UnmanagedNodegroup_load load_rules) _) as [u|e];
    [|exact H].
  unfold lift in H. simpl rbind. unfold fields_0_0_1.
  rewrite (get_or_Some _ _ _ _ G1), (get_or_Some _ _ _ _ G2),
    (get_or_Some _ _ _ _ G3), (get_or_Some _ _ _ _ G4),
    (get_or_Some _ _ _ _ G5), (get_or_Some _ _ _ _ G6).
  assert (E : rest ["unmanaged_nodegroups"; "managed_nodegroups";
                    "global_node_tags"; "global_node_labels";
                    "max_nodegroup_azs"; "secrets_encryption_key_arn";
                    "private_api"; "control_plane_access_cidrs"; "version"] c
              = rest top_keys_0_0_1 c).
  { apply rest_ext. intros k. unfold top_keys_0_0_1. simpl. tauto. }
  rewrite E in H. rewrite H.
  match goal with
  | |- context [EKS_init ?s] => destruct (EKS_init s)
  end; reflexivity.
Qed.

(** [from_0_0_0], in closed form. *)
Lemma from_0_0_0_closed (c : dict) :
  from_0_0_0 load_rules c =
  match first_missing required_0_0_0 c with
  | Some missing => Err (KeyError missing)
  | None =>
      managed <-- load_items (fun ng => ng' <-- remap_mi ng false ;;
                                        ManagedNodegroup_load ng')
                    (get_or "managed_nodegroups" (VDict []) c) ;;
      unmanaged <-- load_items
                      (fun ng => ng' <-- remap_mi ng true ;;
                                 UnmanagedNodegroup_load load_rules ng')
                      (get_or "nodegroups" (VDict []) c) ;;
      cfg <-- EKS_init (fields_0_0_0 c managed unmanaged) ;;
      from_loader "config.eks" cfg (rest top_keys_0_0_0 c)
  end.
Proof.
  remember (from_0_0_0 load_rules c) as r eqn:H.
  unfold from_0_0_0, from_0_0_0_fields in H.
  unfold required_0_0_0, first_missing, dict_mem.
  pop_closed H G1. pop_closed H G2. pop_closed H G3.
  pop_closed H G4. pop_closed H G5.
  pop_step H. pop_step H.
  match type of H with
  | context [load_items ?f ?v] => destruct (load_items f v) as [m|e]
  end; [|exact H].
  pop_step H. pop_step H.
  match type of H with
  | context [load_items ?f ?v] => destruct (load_items f v) as [u|e]
  end; [|exact H].
  unfold lift in H. simpl rbind. unfold fields_0_0_0.
  rewrite (get_or_Some _ _ _ _ G1), (get_or_Some _ _ _ _ G2),
    (get_or_Some _ _ _ _ G3), (get_or_Some _ _ _ _ G4),
    (get_or_Some _ _ _ _ G5).
  assert (E : rest ["nodegroups"; "managed_nodegroups";
                    "global_node_tags"; "global_node_labels";
                    "max_nodegroup_azs"; "private_api"; "version"] c
              = rest top_keys_0_0_0 c).
  { apply rest_ext. intros k. unfold top_keys_0_0_0. simpl. tauto. }
  rewrite E in H. rewrite H.
  match goal with
  | |- context [EKS_init ?s] => destruct (EKS_init s)
  end; reflexivity.
Qed.

Lemma ManagedNodegroup_load_inv (v : value) (out : ManagedNodegroup) :
  ManagedNodegroup_load v = Ok out ->
  exists d, v = VDict d /\ out = managed_of d.
Proof.
  destruct v as [| | | | |d]; try discriminate.
  rewrite ManagedNodegroup_load_closed.
  destruct (first_missing managed_required d); [discriminate|].
  destruct (rest managed_keys d); [|discriminate].
  intros [= <-]. eauto.
Qed.

Lemma UnmanagedNodegroup_load_inv (v : value) (out : UnmanagedNodegroup) :
  UnmanagedNodegroup_load load_rules v = Ok out ->
  exists d,
    v = VDict d
    /\ u_base out = base_of d
    /\ gpu out = get_or "gpu" VNone d
    /\ imdsv2_required out = get_or "imdsv2_required" VNone d
    /\ taints out = get_or "taints" (VDict []) d
    /\ load_rules "config.eks.unmanaged_nodegroups"
         (get_or "ingress_ports" VNone d) = Ok (ingress_ports out).
Proof.
  destruct v as [| | | | |d]; try discriminate.
  rewrite UnmanagedNodegroup_load_closed.
  destruct (first_missing unmanaged_required d); [discriminate|].
  destruct (load_rules _ _) as [rules|] eqn:G; [|discriminate].
  destruct (rest unmanaged_keys d); [|discriminate].
  intros [= <-]. exists d. simpl. auto 10.
Qed.

Lemma Forall2_names {A} (P : string * value -> string * A -> Prop)
    (d : dict) (out : list (string * A)) :
  Forall2 (fun item o => fst o = fst item /\ P item o) d out ->
  map fst out = keys d.
Proof.
  intros F. induction F as [|x y d out [Hn _] _ IH]; simpl; [reflexivity|].
  now rewrite Hn, IH.
Qed.

(** X7.  A configuration object that [from_0_0_1] or [from_0_0_0] returns
    has passed validation: every nodegroup in it that names a custom AMI
    has user data and neither [ssm_agent] nor [labels] (nor [taints], when
    unmanaged) set, and [control_plane_access_cidrs] and [private_api] are
    not both set. *)
Theorem loaded_config_respects_custom_ami (c : dict) (e : EKS) :
  from_0_0_1 load_rules c = Ok e \/ from_0_0_0 load_rules c = Ok e ->
  (forall name ng,
     In (name, ng) (managed_nodegroups e) ->
     truthy (ami_id (m_base ng)) = true ->
     truthy (user_data (m_base ng)) = true
     /\ truthy (ssm_agent (m_base ng)) = false
     /\ truthy (labels (m_base ng)) = false)
  /\ (forall name ng,
        In (name, ng) (unmanaged_nodegroups e) ->
        truthy (ami_id (u_base ng)) = true ->
        truthy (user_data (u_base ng)) = true
        /\ truthy (ssm_agent (u_base ng)) = false
        /\ truthy (labels (u_base ng)) = false
        /\ truthy (taints ng) = false)
  /\ (truthy (control_plane_access_cidrs e) = true ->
      truthy (private_api e) = false).
Proof.
  intros H. apply post_init_Ok_custom_ami.
  destruct H as [H | H].
  - apply from_0_0_1_Ok in H. tauto.
  - apply from_0_0_0_Ok in H. tauto.
Qed.

(** X8.  What [from_0_0_1] returns mirrors its input: every top-level
    field holds the mapping's value, the nodegroups come out under the
    names and in the order of the input mappings, each managed nodegroup
    holds the fields of its entry, and each unmanaged nodegroup holds the
    fields of its entry with [ingress_ports] as [IngressRule.load_rules]
    made them. *)
Theorem from_0_0_1_round_trip (c : dict) (e : EKS) :
  from_0_0_1 load_rules c = Ok e ->
  exists ms us,
    get_or "managed_nodegroups" (VDict []) c = VDict ms
    /\ get_or "unmanaged_nodegroups" (VDict []) c = VDict us
    /\ (forall k, In k required_0_0_1 -> dict_get k c <> None)
    /\ e = fields_0_0_1 c (managed_nodegroups e) (unmanaged_nodegroups e)
    /\ map fst (managed_nodegroups e) = keys ms
    /\ map fst (unmanaged_nodegroups e) = keys us
    /\ Forall2 (fun item o =>
                  exists d, snd item = VDict d /\ snd o = managed_of d)
         ms (managed_nodegroups e)
    /\ Forall2 (fun item o =>
                  exists d,
                    snd item = VDict d
                    /\ u_base (snd o) = base_of d
                    /\ gpu (snd o) = get_or "gpu" VNone d
                    /\ imdsv2_required (snd o)
                       = get_or "imdsv2_required" VNone d
                    /\ taints (snd o) = get_or "taints" (VDict []) d
                    /\ load_rules "config.eks.unmanaged_nodegroups"
                         (get_or "ingress_ports" VNone d)
                       = Ok (ingress_ports (snd o)))
         us (unmanaged_nodegroups e).
Proof.
  rewrite from_0_0_1_closed.
  destruct (first_missing required_0_0_1 c) eqn:F; [discriminate|].
  destruct (load_items ManagedNodegroup_load _) as [m|] eqn:Gm;
    [|discriminate].
  destruct (load_items (UnmanagedNodegroup_load load_rules) _) as [u|] eqn:Gu;
    [|discriminate].
  simpl. destruct (EKS_init (fields_0_0_1 c m u)) as [x|] eqn:Gi;
    [|discriminate].
  simpl. intros H.
  apply from_loader_Ok in H. destruct H as [-> _].
  apply EKS_init_Ok in Gi. destruct Gi as [-> _].
  apply load_items_Ok in Gm. destruct Gm as (ms & Em & Fm).
  apply load_items_Ok in Gu. destruct Gu as (us & Eu & Fu).
  exists ms, us. simpl.
  split; [exact Em|]. split; [exact Eu|].
  split; [exact (proj1 (first_missing_None _ _) F)|].
  split; [reflexivity|].
  split; [exact (Forall2_names _ _ _ Fm)|].
  split; [exact (Forall2_names _ _ _ Fu)|].
  split.
  - eapply Forall2_impl; [|exact Fm].
    intros item o [_ Hl]. exact (ManagedNodegroup_load_inv _ _ Hl).
  - eapply Forall2_impl; [|exact Fu].
    intros item o [_ Hl]. exact (UnmanagedNodegroup_load_inv _ _ Hl).
Qed.

(** X10.  The order in which [from_0_0_1] fails, once the required
    top-level keys are there: an exception from loading a managed nodegroup
    comes first, then one from loading an unmanaged nodegroup, then the
    [ValueError] of validation; each is raised whatever unknown top-level
    keys the mapping has, the leftover check being last. *)
Theorem from_0_0_1_failure_order (c : dict) :
  first_missing required_0_0_1 c = None ->
  (forall err,
     load_items ManagedNodegroup_load
       (get_or "managed_nodegroups" (VDict []) c) = Err err ->
     from_0_0_1 load_rules c = Err err)
  /\ (forall managed err,
        load_items ManagedNodegroup_load
          (get_or "managed_nodegroups" (VDict []) c) = Ok managed ->
        load_items (UnmanagedNodegroup_load load_rules)
          (get_or "unmanaged_nodegroups" (VDict []) c) = Err err ->
        from_0_0_1 load_rules c = Err err)
  /\ (forall managed unmanaged errors,
        load_items ManagedNodegroup_load
          (get_or "managed_nodegroups" (VDict []) c) = Ok managed ->
        load_items (UnmanagedNodegroup_load load_rules)
          (get_or "unmanaged_nodegroups" (VDict []) c) = Ok unmanaged ->
        validation_errors (fields_0_0_1 c managed unmanaged) = errors ->
        errors <> [] ->
        from_0_0_1 load_rules c = Err (ValueError errors)).
Proof.
  intros F. rewrite from_0_0_1_closed, F. split; [|split].
  - intros err ->. reflexivity.
  - intros m err -> ->. reflexivity.
  - intros m u errors -> -> E N. simpl. unfold EKS_init.
    destruct (post_init_cases (fields_0_0_1 c m u)) as [[Hnil _] | [_ Herr]].
    + congruence.
    + rewrite Herr, E. reflexivity.
Qed.

(** X11.  [from_0_0_0] requires [version], [private_api],
    [max_nodegroup_azs], [global_node_labels] and [global_node_tags]: it
    raises [KeyError] for the first of them, in this order, that the
    mapping lacks, before it looks at any nodegroup, and it returns an
    object only when all five are present. *)
Theorem from_0_0_0_required_keys (c : dict) :
  (forall k,
     first_missing required_0_0_0 c = Some k ->
     from_0_0_0 load_rules c = Err (KeyError k))
  /\ (forall e,
        from_0_0_0 load_rules c = Ok e ->
        forall k, In k required_0_0_0 -> dict_get k c <> None).
Proof.
  rewrite from_0_0_0_closed. split.
  - intros k ->. reflexivity.
  - intros e H.
    destruct (first_missing required_0_0_0 c) eqn:F; [discriminate|].
    exact (proj1 (first_missing_None _ _) F).
Qed.

(** X12.  Every unmanaged nodegroup of an object [from_0_0_0] returns has
    the ingress rules [IngressRule.load_rules] makes of the empty mapping,
    whatever the legacy entry or its [machine_image] held under
    [ingress_ports]. *)
Theorem from_0_0_0_ingress_ports_of_empty (c : dict) (e : EKS) :
  from_0_0_0 load_rules c = Ok e ->
  forall name ng,
    In (name, ng) (unmanaged_nodegroups e) ->
    load_rules "config.eks.unmanaged_nodegroups" (VDict [])
    = Ok (ingress_ports ng).
Proof.
  intros H name ng Hin. apply from_0_0_0_Ok in H.
  destruct H as (_ & _ & _ & Hu & _).
  destruct (load_items_result _ _ _ name ng Hu Hin) as (d & raw & _ & _ & Hl).
  destruct (remap_mi raw true) as [r|] eqn:Hr; simpl in Hl; [|discriminate].
  apply remap_mi_Ok in Hr. destruct Hr as (d0 & mi & -> & _ & ->).
  apply UnmanagedNodegroup_load_inv in Hl.
  destruct Hl as (d1 & [= <-] & _ & _ & _ & _ & Hi).
  unfold get_or in Hi.
  rewrite dict_get_remapped in Hi by discriminate.
  rewrite dict_get_set_same in Hi. exact Hi.
Qed.

End Configurations.

(** ** Comprehensions, legacy entries and the version *)

(** X9.  A comprehension over a mapping of nodegroups raises what the
    first entry that fails to load raises, in the order of the mapping;
    later entries are not looked at. *)
Theorem comprehension_first_failure {A} (f : value -> result A)
    (before after : dict) (name : string) (ng : value) (err : error) :
  (forall item, In item before -> exists o, f (snd item) = Ok o) ->
  f ng = Err err ->
  load_items f (VDict (before ++ (name, ng) :: after)) = Err err.
Proof.
  intros Hb Hf. unfold load_items. simpl.
  induction before as [|[n x] before IH]; simpl.
  - now rewrite Hf.
  - destruct (Hb (n, x) (or_introl eq_refl)) as [o Ho]. simpl in Ho.
    rewrite Ho. simpl. rewrite IH; [reflexivity|].
    intros item Hin. apply Hb. now right.
Qed.

Lemma filter_all {A} (p : A -> bool) (l : list A) :
  (forall x, p x = true) -> filter p l = l.
Proof.
  intros H. induction l as [|x l IH]; simpl; [reflexivity|].
  now rewrite H, IH.
Qed.

Lemma dict_merge_nil (d : dict) : dict_merge [] d = d.
Proof. unfold dict_merge. simpl. now apply filter_all. Qed.

Lemma remap_mi_plain (d : dict) :
  dict_get "machine_image" d = None ->
  remap_mi (VDict d) false = Ok (VDict d).
Proof.
  intros G. unfold remap_mi, pop_default. rewrite G.
  now rewrite dict_merge_nil.
Qed.

Section LegacyEntries.

Variable load_rules : string -> value -> result (list IngressRule).

(** X13.  A 0.0.0 nodegroup entry without [machine_image] is loaded as it
    stands: a managed entry exactly as [from_0_0_1] would load it, an
    unmanaged entry as the same mapping with [imdsv2_required] set to
    [False] and [ingress_ports] to the empty mapping. *)
Theorem legacy_entry_without_machine_image (d : dict) :
  dict_get "machine_image" d = None ->
  (ng' <-- remap_mi (VDict d) false ;; ManagedNodegroup_load ng')
  = ManagedNodegroup_load (VDict d)
  /\ (ng' <-- remap_mi (VDict d) true ;;
      UnmanagedNodegroup_load load_rules ng')
     = UnmanagedNodegroup_load load_rules
         (VDict (dict_set "ingress_ports" (VDict [])
                   (dict_set "imdsv2_required" (VBool false) d))).
Proof.
  intros G. split.
  - now rewrite (remap_mi_plain d G).
  - unfold remap_mi, pop_default.
    rewrite !dict_get_set_other by discriminate. rewrite G.
    now rewrite dict_merge_nil.
Qed.

(** X14.  With a [machine_image] sub-mapping, a 0.0.0 nodegroup is loaded
    from the flattened entry: every field is read from the entry's own key
    when it has one and from [machine_image] otherwise; for an unmanaged
    nodegroup this holds of every key but the two that are forced. *)
Theorem machine_image_fields_flattened (ng mi : dict) :
  dict_get "machine_image" ng = Some (VDict mi) ->
  (forall out,
     (ng' <-- remap_mi (VDict ng) false ;; ManagedNodegroup_load ng')
     = Ok out ->
     exists r,
       out = managed_of r
       /\ forall k, k <> "machine_image" ->
            dict_get k r = match dict_get k ng with
                           | Some v => Some v
                           | None => dict_get k mi
                           end)
  /\ (forall out,
        (ng' <-- remap_mi (VDict ng) true ;;
         UnmanagedNodegroup_load load_rules ng') = Ok out ->
        exists r,
          u_base out = base_of r
          /\ gpu out = get_or "gpu" VNone r
          /\ taints out = get_or "taints" (VDict []) r
          /\ forall k,
               k <> "machine_image" -> k <> "imdsv2_required" ->
               k <> "ingress_ports" ->
               dict_get k r = match dict_get k ng with
                              | Some v => Some v
                              | None => dict_get k mi
                              end).
Proof.
  intros Hmi. split.
  - intros out H.
    destruct (remap_mi (VDict ng) false) as [r|] eqn:Hr; simpl in H;
      [|discriminate].
    apply ManagedNodegroup_load_inv in H. destruct H as (d & -> & ->).
    exists d. split; [reflexivity|].
    intros k N. apply remap_mi_Ok in Hr.
    destruct Hr as (d0 & mi' & [= <-] & Hg & [= ->]).
    unfold get_or in Hg. rewrite Hmi in Hg. injection Hg as <-.
    now apply dict_get_remapped.
  - intros out H.
    destruct (remap_mi (VDict ng) true) as [r|] eqn:Hr; simpl in H;
      [|discriminate].
    apply (UnmanagedNodegroup_load_inv load_rules) in H.
    destruct H as (d & -> & Hb & Hg & _ & Ht & _).
    exists d. split; [exact Hb|]. split; [exact Hg|]. split; [exact Ht|].
    intros k N1 N2 N3. exact (remapped_get ng true d mi k Hr Hmi N1 N2 N3).
Qed.

(** X15.  A nodegroup mapping that is present but is not a mapping, such
    as an explicit [None], is not treated like an absent one: with the
    required keys in place, [from_0_0_1] and [from_0_0_0] raise on a
    [managed_nodegroups] value that has no [items]. *)
Theorem managed_nodegroups_must_be_a_mapping (c : dict) (v : value) :
  dict_get "managed_nodegroups" c = Some v ->
  (forall d, v <> VDict d) ->
  (first_missing required_0_0_1 c = None ->
   from_0_0_1 load_rules c = Err TypeError)
  /\ (first_missing required_0_0_0 c = None ->
      from_0_0_0 load_rules c = Err TypeError).
Proof.
  intros G N.
  assert (E : forall A (f : value -> result A),
            load_items f (get_or "managed_nodegroups" (VDict []) c)
            = Err TypeError).
  { intros A f. unfold get_or. rewrite G.
    destruct v as [| | | | |d]; try reflexivity.
    exfalso. exact (N d eq_refl). }
  split; intros F.
  - rewrite from_0_0_1_closed, F, E. reflexivity.
  - rewrite from_0_0_0_closed, F, E. reflexivity.
Qed.

End LegacyEntries.

Lemma replace_char_length (old new : ascii) (s : string) :
  String.length (replace_char old new s) = String.length s.
Proof. induction s as [|c s IH]; simpl; congruence. Qed.

Lemma replace_char_get (old new : ascii) (s : string) (n : nat) :
  String.get n (replace_char old new s) =
  match String.get n s with
  | Some c => Some (if Ascii.eqb c old then new else c)
  | None => None
  end.
Proof.
  revert n. induction s as [|c s IH]; intros n; simpl; [reflexivity|].
  destruct n as [|n]; [reflexivity | apply IH].
Qed.

(** X16.  The attribute of [KubernetesVersion] the provisioner asks for is
    the letter V followed by the version with every dot turned into an
    underscore: as long as the version, free of dots, and the version
    itself where it has none.  The loader does not check that [version] is
    a string, and on a loaded configuration whose version is not one the
    provisioner raises. *)
Theorem kubernetes_version_attr_of_loaded
    (load_rules : string -> value -> result (list IngressRule)) :
  (forall s,
     exists r,
       kubernetes_version_attr (VStr s) = Ok (String "V" r)
       /\ String.length r = String.length s
       /\ (forall n, String.get n r <> Some "."%char)
       /\ (forall n c, String.get n s = Some c -> c <> "."%char ->
                       String.get n r = Some c)
       /\ (forall n, String.get n s = Some "."%char ->
                     String.get n r = Some "_"%char))
  /\ (forall c e,
        from_0_0_1 load_rules c = Ok e ->
        (forall s, dict_get "version" c <> Some (VStr s)) ->
        kubernetes_version_attr (version e) = Err TypeError).
Proof.
  split.
  - intros s. exists (replace_char "." "_" s).
    split; [reflexivity|].
    split; [apply replace_char_length|].
    split; [|split].
    + intros n. rewrite replace_char_get.
      destruct (String.get n s) as [c|]; [|discriminate].
      destruct (Ascii.eqb c ".") eqn:E; [discriminate|].
      intros [= ->]. discriminate.
    + intros n c G N. rewrite replace_char_get, G.
      destruct (Ascii.eqb c ".") eqn:E; [|reflexivity].
      apply Ascii.eqb_eq in E. contradiction.
    + intros n G. rewrite replace_char_get, G. reflexivity.
  - intros c e H N. apply from_0_0_1_Ok in H.
    destruct H as (Hv & _).
    destruct (version e) as [| | |s| |]; try reflexivity.
    exfalso. exact (N s Hv).
Qed.

(** ** Instances of the further properties *)

Lemma unmanaged_load_round_trip_witness :
  exists out,
    UnmanagedNodegroup_load no_rules (VDict plain_unmanaged_raw) = Ok out
    /\ taints out = VDict []
    /\ imdsv2_required out = VBool true.
Proof.
  eexists. split; [vm_compute; reflexivity|].
  match goal with
  | |- taints ?o = _ /\ _ =>
      destruct (unmanaged_load_round_trip no_rules plain_unmanaged_raw o
                  eq_refl)
        as (_ & _ & _ & Hi & Ht & _)
  end.
  split; [exact Ht | exact Hi].
Defined.

Lemma validation_reads_only_checked_fields_witness :
  validation_errors (eks_with_managed "workers" (plain_nodegroup 1))
  = validation_errors (eks_with_managed "workers" spot_nodegroup)
  /\ post_init (eks_with_managed "workers" (plain_nodegroup 1))
     = post_init (eks_with_managed "workers" spot_nodegroup).
Proof.
  apply validation_reads_only_checked_fields.
  - repeat constructor.
  - constructor.
  - reflexivity.
  - reflexivity.
Defined.

Lemma loaded_config_respects_custom_ami_witness :
  exists e ng,
    from_0_0_0 no_rules (legacy_config legacy_managed legacy_unmanaged) = Ok e
    /\ In ("workers", ng) (managed_nodegroups e)
    /\ truthy (ami_id (m_base ng)) = true
    /\ truthy (user_data (m_base ng)) = true.
Proof.
  eexists. eexists.
  split; [vm_compute; reflexivity|].
  split; [left; reflexivity|].
  split; [reflexivity|].
  match goal with
  | |- truthy (user_data (m_base ?ng)) = true =>
      exact (proj1
               (proj1
                  (loaded_config_respects_custom_ami no_rules
                     (legacy_config legacy_managed legacy_unmanaged) _
                     (or_intror eq_refl))
                  "workers" ng (or_introl eq_refl) eq_refl))
  end.
Defined.

Lemma from_0_0_1_round_trip_witness :
  exists e,
    from_0_0_1 no_rules (config_with_managed "workers" (plain_nodegroup_raw 1))
    = Ok e
    /\ map fst (managed_nodegroups e) = ["workers"].
Proof.
  eexists. split; [vm_compute; reflexivity|].
  match goal with
  | |- map fst (managed_nodegroups ?e) = _ =>
      destruct (from_0_0_1_round_trip no_rules
                  (config_with_managed "workers" (plain_nodegroup_raw 1)) e
                  eq_refl)
        as (ms & us & Em & _ & _ & _ & Hn & _)
  end.
  rewrite Hn. vm_compute in Em. injection Em as <-. reflexivity.
Defined.

Lemma comprehension_first_failure_witness :
  load_items ManagedNodegroup_load (VDict entries_with_failures)
  = Err TypeError.
Proof.
  apply (comprehension_first_failure ManagedNodegroup_load
           [("first", VDict (plain_nodegroup_raw 1))] [("third", VDict [])]
           "second" VNone TypeError).
  - intros item [<- | []]. eexists. reflexivity.
  - reflexivity.
Defined.

Lemma from_0_0_1_failure_order_witness :
  from_0_0_1 no_rules config_with_unknown_key
  = Err (ValueError
           [user_data_msg (managed_error_name "workers");
            incompatible_msg (managed_error_name "workers")]).
Proof.
  eapply (proj2 (proj2 (from_0_0_1_failure_order no_rules
                          config_with_unknown_key eq_refl))).
  - vm_compute. reflexivity.
  - vm_compute. reflexivity.
  - vm_compute. reflexivity.
  - discriminate.
Defined.

Lemma from_0_0_0_ingress_ports_of_empty_witness :
  exists e ng,
    from_0_0_0 no_rules (legacy_config legacy_managed legacy_unmanaged) = Ok e
    /\ In ("platform", ng) (unmanaged_nodegroups e)
    /\ no_rules "config.eks.unmanaged_nodegroups" (VDict [])
       = Ok (ingress_ports ng).
Proof.
  eexists. eexists.
  split; [vm_compute; reflexivity|].
  split; [left; reflexivity|].
  match goal with
  | |- _ = Ok (ingress_ports ?ng) =>
      exact (from_0_0_0_ingress_ports_of_empty no_rules
               (legacy_config legacy_managed legacy_unmanaged) _ eq_refl
               "platform" ng (or_introl eq_refl))
  end.
Defined.

Lemma legacy_entry_without_machine_image_witness :
  (ng' <-- remap_mi (VDict (plain_nodegroup_raw 1)) false ;;
   ManagedNodegroup_load ng')
  = ManagedNodegroup_load (VDict (plain_nodegroup_raw 1)).
Proof.
  exact (proj1 (legacy_entry_without_machine_image no_rules
                  (plain_nodegroup_raw 1) eq_refl)).
Defined.

Lemma machine_image_fields_flattened_witness :
  exists out,
    (ng' <-- remap_mi (VDict legacy_managed) false ;;
     ManagedNodegroup_load ng') = Ok out
    /\ exists r,
         out = managed_of r
         /\ dict_get "user_data" r = Some (VStr "#!/bin/sh").
Proof.
  eexists. split; [vm_compute; reflexivity|].
  match goal with
  | |- exists r, ?o = _ /\ _ =>
      destruct (proj1 (machine_image_fields_flattened no_rules
                         legacy_managed legacy_machine_image eq_refl)
                  o eq_refl)
        as (r & Ho & Hk)
  end.
  exists r. split; [exact Ho|].
  rewrite (Hk "user_data") by discriminate. reflexivity.
Defined.

Lemma managed_nodegroups_must_be_a_mapping_witness :
  from_0_0_1 no_rules config_with_null_nodegroups = Err TypeError.
Proof.
  refine (proj1 (managed_nodegroups_must_be_a_mapping no_rules
                   config_with_null_nodegroups VNone eq_refl _) eq_refl).
  intros d. discriminate.
Defined.

(** * Entry objects bound to several names *)

Section SharedEntries.

Variable load_rules : string -> value -> result (list IngressRule).

(** ** [from_0_0_1] consumes the entries it loads *)

(** A nodegroup loader run on an entry object needs [ssm_agent] there,
    leaves the object without it, and writes to no other object. *)
Lemma shared_load_entry_consumes {A} (k : NodegroupBase -> loader A)
    (ks : list string) (thing section : string) (a : Shared.addr)
    (st st' : Shared.store) (out : A) :
  frames (bind base_load k) ks -> In "ssm_agent" ks ->
  Shared.load_entry (bind base_load k) thing section (Shared.Obj a) st
  = Ok (out, st') ->
  dict_get "ssm_agent" (Shared.lookup a st) <> None
  /\ dict_get "ssm_agent" (Shared.lookup a st') = None
  /\ forall b, b <> a -> Shared.lookup b st' = Shared.lookup b st.
Proof.
  intros F Hin. unfold Shared.load_entry.
  destruct (bind base_load k (Shared.lookup a st)) as [[o r]|] eqn:E;
    [|discriminate].
  destruct (check_leavins thing section r); simpl; [|discriminate].
  intros [= <- <-]. split; [|split].
  - rewrite base_load_closed in E.
    destruct (first_missing base_required (Shared.lookup a st)) eqn:M;
      [discriminate|].
    apply (proj1 (first_missing_None _ _) M). simpl. auto.
  - simpl. rewrite Nat.eqb_refl.
    rewrite (frames_rest _ _ _ _ _ F E), dict_get_rest.
    now rewrite (proj2 (existsb_eqb_In _ _) Hin).
  - intros b N. simpl. apply Nat.eqb_neq in N. now rewrite N.
Qed.

Lemma shared_load_entry_value {A} (m : loader A) (thing section : string)
    (v : value) (st : Shared.store) (out : A) (st' : Shared.store) :
  Shared.load_entry m thing section (Shared.Imm v) st = Ok (out, st') ->
  st' = st.
Proof.
  unfold Shared.load_entry.
  destruct (load_with m thing section v); simpl; [|discriminate].
  now intros [= _ <-].
Qed.

(** A comprehension of [from_0_0_1] that finishes has met every entry
    object once, found [ssm_agent] in it, and left it without. *)
Lemma shared_load_entries_consumes {A}
    (f : Shared.entry -> Shared.store -> result (A * Shared.store)) :
  (forall a st out st',
     f (Shared.Obj a) st = Ok (out, st') ->
     dict_get "ssm_agent" (Shared.lookup a st) <> None
     /\ dict_get "ssm_agent" (Shared.lookup a st') = None
     /\ forall b, b <> a -> Shared.lookup b st' = Shared.lookup b st) ->
  (forall v st out st', f (Shared.Imm v) st = Ok (out, st') -> st' = st) ->
  forall es st outs st',
    Shared.load_entries f es st = Ok (outs, st') ->
    NoDup (addrs es)
    /\ (forall a, In a (addrs es) ->
          dict_get "ssm_agent" (Shared.lookup a st) <> None
          /\ dict_get "ssm_agent" (Shared.lookup a st') = None)
    /\ (forall b, ~ In b (addrs es) ->
          Shared.lookup b st' = Shared.lookup b st).
Proof.
  intros Hobj Hval.
  induction es as [|[name ng] es IH]; intros st outs st' H; simpl in H.
  - injection H as _ <-. simpl. split; [constructor|]. split; tauto.
  - destruct (f ng st) as [[out st1]|] eqn:E; [|discriminate].
    destruct (Shared.load_entries f es st1) as [[outs' st2]|] eqn:E';
      [|discriminate].
    injection H as _ <-.
    destruct (IH _ _ _ E') as (Hnd & Hin & Hout).
    destruct ng as [a|v]; simpl.
    + destruct (Hobj _ _ _ _ E) as (Hpre & Hpost & Hothers).
      assert (Ha : ~ In a (addrs es)).
      { intros Hain. destruct (Hin a Hain) as [Hp _]. contradiction. }
      split; [now constructor|]. split.
      * intros b [<- | Hb].
        -- split; [exact Hpre|]. now rewrite (Hout a Ha).
        -- destruct (Hin b Hb) as [Hp Hq]. split; [|exact Hq].
           rewrite <- (Hothers b); [exact Hp|].
           intros ->. contradiction.
      * intros b Hb. rewrite (Hout b) by tauto.
        apply Hothers. intros ->. tauto.
    + rewrite (Hval _ _ _ _ E) in *. auto.
Qed.

Lemma shared_from_0_0_1_Ok (c : Shared.config) (e : EKS) :
  Shared.from_0_0_1 load_rules c = Ok e ->
  exists es_m es_u st1 st2,
    Shared.items (Shared.managed c) = Ok es_m
    /\ Shared.load_entries (Shared.load_managed_entry) es_m (Shared.objects c)
       = Ok (managed_nodegroups e, st1)
    /\ Shared.items (Shared.unmanaged c) = Ok es_u
    /\ Shared.load_entries (Shared.load_unmanaged_entry load_rules) es_u st1
       = Ok (unmanaged_nodegroups e, st2).
Proof.
  unfold Shared.from_0_0_1. intros H.
  destruct (Shared.top_fields_0_0_1 (Shared.top c))
    as [[[[[[[[v1 v2] v3] v4] v5] v6] v7] rest]|]; [|discriminate].
  destruct (Shared.items (Shared.managed c)) as [es_m|] eqn:Im;
    [|discriminate].
  simpl in H.
  destruct (Shared.load_entries Shared.load_managed_entry es_m
              (Shared.objects c)) as [[m st1]|] eqn:Lm; [|discriminate].
  destruct (Shared.items (Shared.unmanaged c)) as [es_u|] eqn:Iu;
    [|discriminate].
  simpl in H.
  destruct (Shared.load_entries (Shared.load_unmanaged_entry load_rules)
              es_u st1) as [[u st2]|] eqn:Lu; [|discriminate].
  match type of H with
  | context [EKS_init ?s] => destruct (EKS_init s) as [x|] eqn:Gi
  end; [|discriminate].
  simpl in H. apply from_loader_Ok in H. destruct H as [-> _].
  apply EKS_init_Ok in Gi. destruct Gi as [-> _].
  exists es_m, es_u, st1, st2. simpl. auto.
Qed.

(** X17.  [from_0_0_1] returns an object only when no entry object is
    bound to two names, within [managed_nodegroups] and
    [unmanaged_nodegroups] or across them: the nodegroup loaders pop from
    the entry itself, so the second name finds the object without the keys
    the first load has read. *)
Theorem from_0_0_1_accepts_no_shared_entry (c : Shared.config) (e : EKS) :
  Shared.from_0_0_1 load_rules c = Ok e -> unshared c.
Proof.
  intros H. apply shared_from_0_0_1_Ok in H.
  destruct H as (es_m & es_u & st1 & st2 & Im & Lm & Iu & Lu).
  unfold unshared, entries_of. rewrite Im, Iu.
  destruct (shared_load_entries_consumes Shared.load_managed_entry
              (fun a st out st' =>
                 shared_load_entry_consumes _ managed_keys _ _ a st st' out
                   frames_ManagedNodegroup_fields
                   (or_introl eq_refl))
              (shared_load_entry_value _ _ _)
              _ _ _ _ Lm) as (Nm & Hm & _).
  destruct (shared_load_entries_consumes
              (Shared.load_unmanaged_entry load_rules)
              (fun a st out st' =>
                 shared_load_entry_consumes _ unmanaged_keys _ _ a st st' out
                   (frames_UnmanagedNodegroup_fields load_rules)
                   (or_introl eq_refl))
              (shared_load_entry_value _ _ _)
              _ _ _ _ Lu) as (Nu & Hu & _).
  apply NoDup_app; [exact Nm | exact Nu |].
  intros a Ha Hb.
  destruct (Hm a Ha) as [_ Hgone]. destruct (Hu a Hb) as [Hthere _].
  contradiction.
Qed.

End SharedEntries.

(** ** Without shared entries the writes are not seen *)



















Section SharedAgreement.

Variable load_rules : string -> value -> result (list IngressRule).









End SharedAgreement.

(** ** Instances *)

(** Two nodegroups that are objects of their own load; one object under two
    names does not: the second name finds [ssm_agent] gone. *)
Lemma from_0_0_1_accepts_no_shared_entry_witness :
  unshared current_objects_config
  /\ Shared.from_0_0_1 no_rules current_shared_config
     = Err (KeyError "ssm_agent").
Proof.
  split; [|reflexivity].
  eapply (from_0_0_1_accepts_no_shared_entry no_rules).
  vm_compute. reflexivity.
Defined.

